(** * Physics3D: the simulation-render-calibration loop of [simulation.py]

    A shallow embedding of the driver script.  Torch tensors of per-particle
    rows are lists of rows; Python floats are idealised as real numbers, so
    every statement about arithmetic is a statement about exact arithmetic.
    The continuum solver, the rasteriser, the guidance model and the other
    external collaborators are consumed through interfaces. *)

From Stdlib Require Import String Ascii DecimalString.
From Stdlib Require Import Reals Lra Lia ZArith Bool Psatz List.
Import ListNotations.
Open Scope R_scope.

Set Implicit Arguments.

(** ** Errors *)

Inductive error : Type :=
| AssertionError
| IndexError
| RuntimeError
| TypeError
| AttributeError
| ZeroDivisionError.

Inductive result (A : Type) : Type :=
| Ok (a : A)
| Err (e : error).

Arguments Ok {A} a.
Arguments Err {A} e.

(** ** Small linear algebra: rows of a [N,3] tensor, 3x3 matrices, packed
    symmetric covariances (rows of a [N,6] tensor) *)

Module Linalg.

Record V3 : Type := mkV3 { vx : R; vy : R; vz : R }.

Record M33 : Type := mkM33 {
  m00 : R; m01 : R; m02 : R;
  m10 : R; m11 : R; m12 : R;
  m20 : R; m21 : R; m22 : R }.

(** Upper triangle of a symmetric matrix, in the order xx, xy, xz, yy, yz, zz. *)
Record Cov6 : Type := mkCov6 {
  cxx : R; cxy : R; cxz : R; cyy : R; cyz : R; czz : R }.

Definition vadd (a b : V3) : V3 := mkV3 (vx a + vx b) (vy a + vy b) (vz a + vz b).
Definition vsub (a b : V3) : V3 := mkV3 (vx a - vx b) (vy a - vy b) (vz a - vz b).
Definition vscale (s : R) (a : V3) : V3 := mkV3 (vx a * s) (vy a * s) (vz a * s).
Definition vdiv (a : V3) (s : R) : V3 := mkV3 (vx a / s) (vy a / s) (vz a / s).

Definition identity : M33 := mkM33 1 0 0 0 1 0 0 0 1.

Definition transpose (a : M33) : M33 :=
  mkM33 (m00 a) (m10 a) (m20 a)
        (m01 a) (m11 a) (m21 a)
        (m02 a) (m12 a) (m22 a).

Definition mmul (a b : M33) : M33 :=
  mkM33 (m00 a * m00 b + m01 a * m10 b + m02 a * m20 b)
        (m00 a * m01 b + m01 a * m11 b + m02 a * m21 b)
        (m00 a * m02 b + m01 a * m12 b + m02 a * m22 b)
        (m10 a * m00 b + m11 a * m10 b + m12 a * m20 b)
        (m10 a * m01 b + m11 a * m11 b + m12 a * m21 b)
        (m10 a * m02 b + m11 a * m12 b + m12 a * m22 b)
        (m20 a * m00 b + m21 a * m10 b + m22 a * m20 b)
        (m20 a * m01 b + m21 a * m11 b + m22 a * m21 b)
        (m20 a * m02 b + m21 a * m12 b + m22 a * m22 b).

(** [row_mul v a] is the row vector [v] times the matrix [a], one row of
    [torch.mm(position_tensor, a)]. *)
Definition row_mul (v : V3) (a : M33) : V3 :=
  mkV3 (vx v * m00 a + vy v * m10 a + vz v * m20 a)
       (vx v * m01 a + vy v * m11 a + vz v * m21 a)
       (vx v * m02 a + vy v * m12 a + vz v * m22 a).


Definition orthogonal (a : M33) : Prop :=
  mmul (transpose a) a = identity /\ mmul a (transpose a) = identity.

Definition get_mat_from_upper (c : Cov6) : M33 :=
  mkM33 (cxx c) (cxy c) (cxz c)
        (cxy c) (cyy c) (cyz c)
        (cxz c) (cyz c) (czz c).

Definition get_upper_from_mat (a : M33) : Cov6 :=
  mkCov6 (m00 a) (m01 a) (m02 a) (m11 a) (m12 a) (m22 a).

Definition cov_scale (s : R) (c : Cov6) : Cov6 :=
  mkCov6 (s * cxx c) (s * cxy c) (s * cxz c) (s * cyy c) (s * cyz c) (s * czz c).

Definition cov_div (c : Cov6) (s : R) : Cov6 :=
  mkCov6 (cxx c / s) (cxy c / s) (cxz c / s) (cyy c / s) (cyz c / s) (czz c / s).

End Linalg.
Export Linalg.

(** ** Tensor operations used by the script *)

Module Tensor.

(** [x > y] on floats, as a boolean. *)
Definition Rgtb (x y : R) : bool := if Rlt_dec y x then true else false.
Definition Rltb (x y : R) : bool := if Rlt_dec x y then true else false.

(** [xs[mask, :]]: boolean-mask indexing.  Every mask in the script is built
    from an array with as many rows as the one it indexes. *)
Definition mask_select {A : Type} (mask : list bool) (xs : list A) : list A :=
  map snd (filter fst (combine mask xs)).

(** [~mask] *)
Definition logical_not (mask : list bool) : list bool := map negb mask.

(** [range(n)] for a Python integer [n]: empty when [n <= 0]. *)
Definition range (n : Z) : list nat := seq 0 (Z.to_nat n).

(** [int(x)] on a float: truncation towards zero. *)
Definition py_int (x : R) : Z :=
  if Rle_dec 0 x then Int_part x else (- Int_part (- x))%Z.

(** [torch.max(t)], [torch.min(t)] over all entries: an empty tensor has no
    maximum and the call raises. *)
Definition tensor_max (xs : list R) : result R :=
  match xs with
  | [] => Err RuntimeError
  | x :: rest => Ok (fold_left Rmax rest x)
  end.

Definition tensor_min (xs : list R) : result R :=
  match xs with
  | [] => Err RuntimeError
  | x :: rest => Ok (fold_left Rmin rest x)
  end.

End Tensor.
Export Tensor.

(** ** Coordinate Normalizer ([utils.transformation_utils]) *)

Module Normalizer.

Inductive axis : Type := AxisX | AxisY | AxisZ.

(** Modelled from the spec: [generate_rotation_matrices] of
    [utils/transformation_utils.py] is missing.  The transform record holds
    "a rotation sequence (ordered list of axis-angle rotations)"; each entry
    is the rotation by [degree] degrees about one coordinate axis. *)
Definition generate_rotation_matrix (degree : R) (a : axis) : M33 :=
  let c := cos (degree / 180 * PI) in
  let s := sin (degree / 180 * PI) in
  match a with
  | AxisX => mkM33 1 0 0
                   0 c (- s)
                   0 s c
  | AxisY => mkM33 c 0 s
                   0 1 0
                   (- s) 0 c
  | AxisZ => mkM33 c (- s) 0
                   s c 0
                   0 0 1
  end.

Definition generate_rotation_matrices (degrees : list R) (axises : list axis)
  : list M33 :=
  map (fun da => generate_rotation_matrix (fst da) (snd da)) (combine degrees axises).

(** Modelled from the spec: [apply_rotations] and [apply_inverse_rotations]
    are missing.  "Apply rotation sequence to positions": each rotation in
    order, on every row; the inverse pipeline "applies inverse rotations":
    the transposed matrices, last rotation first. *)
Definition apply_rotation (ps : list V3) (r : M33) : list V3 :=
  map (fun p => row_mul p (transpose r)) ps.

Definition apply_rotations (ps : list V3) (rs : list M33) : list V3 :=
  fold_left apply_rotation rs ps.


Definition apply_inverse_rotation (ps : list V3) (r : M33) : list V3 :=
  map (fun p => row_mul p r) ps.

Definition apply_inverse_rotations (ps : list V3) (rs : list M33) : list V3 :=
  fold_left apply_inverse_rotation (rev rs) ps.

(** Modelled from the spec: [apply_cov_rotations] and
    [apply_inverse_cov_rotations] are missing.  "Covariance transforms as
    R Sigma R^T, packed-symmetric in/out". *)
Definition cov_rotate (r : M33) (c : Cov6) : Cov6 :=
  get_upper_from_mat (mmul r (mmul (get_mat_from_upper c) (transpose r))).

Definition apply_cov_rotation (cs : list Cov6) (r : M33) : list Cov6 :=
  map (cov_rotate r) cs.

Definition apply_cov_rotations (cs : list Cov6) (rs : list M33) : list Cov6 :=
  fold_left apply_cov_rotation rs cs.

Definition apply_inverse_cov_rotations (cs : list Cov6) (rs : list M33)
  : list Cov6 :=
  fold_left (fun acc r => apply_cov_rotation acc (transpose r)) (rev rs) cs.

Definition vmin (a b : V3) : V3 :=
  mkV3 (Rmin (vx a) (vx b)) (Rmin (vy a) (vy b)) (Rmin (vz a) (vz b)).
Definition vmax (a b : V3) : V3 :=
  mkV3 (Rmax (vx a) (vx b)) (Rmax (vy a) (vy b)) (Rmax (vz a) (vz b)).

(** Modelled from the spec: [transform2origin] is missing.  It computes the
    scale and the translation of the transform record "from the particle
    set's bounding statistics": the per-axis minimum and maximum of the set.
    The set is translated so that the centre of its bounding box sits at the
    origin and rescaled by the reciprocal of the largest extent, so that it
    fits inside the unit cube.  A reduction over an empty set has no value:
    the call fails. *)
Definition transform2origin (position_tensor : list V3)
  : result (list V3 * R * V3) :=
  match position_tensor with
  | [] => Err IndexError
  | p :: rest =>
      let min_pos := fold_left vmin rest p in
      let max_pos := fold_left vmax rest p in
      let d := vsub max_pos min_pos in
      let max_diff := Rmax (Rmax (vx d) (vy d)) (vz d) in
      let original_mean_pos := vdiv (vadd min_pos max_pos) 2 in
      let scale := 1 / max_diff in
      Ok (map (fun q => vscale scale (vsub q original_mean_pos)) position_tensor,
          scale, original_mean_pos)
  end.

(** Modelled from the spec: the inverse "undoes scale" and "undoes centroid
    shift". *)
Definition undotransform2origin (position_tensor : list V3) (scale : R)
  (original_mean_pos : V3) : list V3 :=
  map (fun q => vadd original_mean_pos (vdiv q scale)) position_tensor.

(** Modelled from the spec: "translate again to center the cube at a fixed
    offset inside the simulation grid domain"; the offset is (1,1,1). *)
Definition tensor111 : V3 := mkV3 1 1 1.

Definition shift2center111 (position_tensor : list V3) : list V3 :=
  map (fun q => vadd q tensor111) position_tensor.

Definition undoshift2center111 (position_tensor : list V3) : list V3 :=
  map (fun q => vsub q tensor111) position_tensor.

(** Lines 212-217 of the script: the rotated positions are centred, rescaled
    and shifted; the covariances are rotated and multiplied by the square of
    the scale.  Returns the transformed positions and covariances with the
    scale and translation that every later frame reuses. *)
Definition normalize (rotated_pos : list V3) (init_cov : list Cov6)
  (rotation_matrices : list M33) : result (list V3 * list Cov6 * R * V3) :=
  match transform2origin rotated_pos with
  | Err e => Err e
  | Ok (transformed_pos, scale_origin, original_mean_pos) =>
      let transformed_pos := shift2center111 transformed_pos in
      let init_cov := apply_cov_rotations init_cov rotation_matrices in
      let init_cov := map (cov_scale (scale_origin * scale_origin)) init_cov in
      Ok (transformed_pos, init_cov, scale_origin, original_mean_pos)
  end.


(** Lines 450-457 (and 568-575): the inverse pipeline applied to the
    simulated positions and covariances of a frame. *)
Definition from_simulation (pos : list V3) (cov3D : list Cov6)
  (scale_origin : R) (original_mean_pos : V3) (rotation_matrices : list M33)
  : list V3 * list Cov6 :=
  let pos :=
    apply_inverse_rotations
      (undotransform2origin (undoshift2center111 pos) scale_origin original_mean_pos)
      rotation_matrices in
  let cov3D := map (fun c => cov_div c (scale_origin * scale_origin)) cov3D in
  let cov3D := apply_inverse_cov_rotations cov3D rotation_matrices in
  (pos, cov3D).

End Normalizer.
Export Normalizer.

(** ** Configuration, inputs and external collaborators *)

Module Config.

(** One row of appearance coefficients, and one RGB colour. *)
Definition SH : Type := list R.
Definition Color : Type := V3.

Record filling_params : Type := {
  fill_n_grid : Z;
  max_particles_num : Z;
  density_threshold : R;
  search_threshold : R;
  visualize : bool }.

Record preprocessing_params : Type := {
  opacity_threshold : R;
  rotation_degree : list R;
  rotation_axis : list axis;
  sim_area : option (list R);
  particle_filling : option filling_params }.

Record material_params : Type := {
  n_grid : Z;
  grid_lim : R;
  material : string }.

Record time_params : Type := {
  substep_dt : R;
  frame_dt : R;
  frame_num : Z }.

Record boundary_condition : Type := {
  bc_type : string;
  start_time : R;
  end_time : R }.

(** What the script reads: the reconstructed scene ([load_params_from_gs]),
    the decoded physics configuration, the optional movable-region point
    cloud ([None] when [moving_part_points.ply] does not exist) and the
    command line's output path. *)
Record inputs : Type := {
  gs_pos : list V3;
  gs_cov3D_precomp : list Cov6;
  gs_screen_points : list V3;
  gs_opacity : list R;
  gs_shs : list SH;
  preprocessing : preprocessing_params;
  materials : material_params;
  bc_params : list boundary_condition;
  times : time_params;
  moving_pts : option (list V3);
  output_path : option string }.

(** The arguments of one rasteriser call. *)
Record render_args : Type := {
  means3D : list V3;
  colors_precomp : list Color;
  opacities : list R;
  cov3D_precomp : list Cov6 }.

(** Solver state ([mpm_solver.mpm_state]) and material model
    ([mpm_solver.mpm_model]). *)
Record mpm_state : Type := {
  particle_x : list V3;
  particle_v : list V3;
  particle_vol : list R;
  particle_F : list M33;
  particle_R : list M33;
  particle_cov : list Cov6 }.

Record mpm_model : Type := {
  E : list R;
  nu : list R;
  mu_N : list R;
  lam_N : list R;
  viscosity : list R;
  mu : list R;
  lam : list R }.

Record MPM_Simulator_WARP : Type := {
  n_particles : nat;
  state : mpm_state;
  model : mpm_model;
  collider_params : list boundary_condition;
  time : R }.

(** The four gradients read back after the backward pass:
    [E.grad], [mu_N.grad], [lam_N.grad], [viscosity.grad]. *)
Record field_grads : Type := {
  E_grad : list R;
  mu_N_grad : list R;
  lam_N_grad : list R;
  viscosity_grad : list R }.

(** External collaborators, consumed as opaque services: the far-point
    test, the particle filler, the volume estimate, the camera policy, the
    colour evaluation, the rasteriser, the guidance model, and the numerics
    of the continuum solver with its differentiation. *)
Record collaborators : Type := {
  Image : Type;
  Camera : Type;
  is_far_point : V3 -> list V3 -> R -> bool;
  filler : filling_params -> R -> list V3 -> list R -> list Cov6 -> list V3;
  filler_attributes : list V3 -> list SH -> list Cov6 -> list R -> V3 -> SH * R * Cov6;
  get_particle_volume : list V3 -> Z -> R -> bool -> list R;
  get_camera_view : nat -> Camera;
  eval_sh_color : Camera -> SH -> V3 -> M33 -> Color;
  rasterize : Camera -> render_args -> Image;
  guidance : list Image -> list (string * R);
  material_fields : material_params -> nat -> mpm_model;
  stiffness : R -> R -> R * R;
  physics : mpm_model -> list boundary_condition -> R -> R -> mpm_state -> mpm_state;
  material_grad : nat -> R -> MPM_Simulator_WARP -> field_grads;
  update_param : R -> R -> R -> R -> R }.

End Config.
Export Config.

(** ** Particle Set Builder (lines 131-311) *)

Definition rbind {A B : Type} (r : result A) (f : A -> result B) : result B :=
  match r with
  | Ok a => f a
  | Err e => Err e
  end.

Declare Scope result_scope.
Delimit Scope result_scope with result.
Notation "x <- c ;; k" := (rbind c (fun x => k))
  (at level 61, c at next level, right associativity) : result_scope.
Notation "' pat <- c ;; k" := (rbind c (fun x => match x with pat => k end))
  (at level 61, pat pattern, c at next level, right associativity) : result_scope.

(** The frozen-particle arrays [unselected_pos], [unselected_cov],
    [unselected_opacity], [unselected_shs]: the four variables are always
    assigned together. *)
Record frozen : Type := {
  unselected_pos : list V3;
  unselected_cov : list Cov6;
  unselected_opacity : list R;
  unselected_shs : list SH }.

(** The variables that the rest of the script reads after preprocessing. *)
Record scene : Type := {
  mpm_init_pos : list V3;
  mpm_init_vol : list R;
  mpm_init_cov : list Cov6;
  shs_render : list SH;
  opacity_render : list R;
  gs_num : nat;
  init_len : nat;
  unselected : option frozen;
  init_screen_points : list V3;
  rotation_matrices : list M33;
  scale_origin : R;
  original_mean_pos : V3 }.

Definition zero_cov : Cov6 := mkCov6 0 0 0 0 0 0.

(** Lines 197-200: inside the box on all three axes, strictly. *)
Definition in_sim_area (boundary : list R) (p : V3) : bool :=
  let b i := nth i boundary 0 in
  (((((true && Rgtb (vx p) (b 0%nat)) && Rltb (vx p) (b 1%nat))
       && Rgtb (vy p) (b 2%nat)) && Rltb (vy p) (b 3%nat))
     && Rgtb (vz p) (b 4%nat)) && Rltb (vz p) (b 5%nat).

Section Builder.

Context (ext : collaborators).

(** Modelled from the spec: [find_far_points] is missing.  Particles are
    partitioned "using a distance threshold": one decision per particle. *)
Definition find_far_points (init_pos moving_pts : list V3) (thres : R)
  : list bool :=
  map (fun p => is_far_point ext p moving_pts thres) init_pos.

(** Modelled from the spec: [fill_particles] is missing.  The synthesised
    interior particles are "appended after the original retained
    particles". *)
Definition fill_particles (fp : filling_params) (grid_dx : R)
  (pos : list V3) (opacity : list R) (cov : list Cov6) : list V3 :=
  pos ++ filler ext fp grid_dx pos opacity cov.

(** Modelled from the spec: [init_filled_particles] is missing.  Appearance
    rows for the filler particles follow those of the originals. *)
Definition init_filled_particles (pos : list V3) (shs : list SH)
  (cov : list Cov6) (opacity : list R) (new_pos : list V3)
  : list SH * list R * list Cov6 :=
  let attrs := map (filler_attributes ext pos shs cov opacity) new_pos in
  (shs ++ map (fun a => fst (fst a)) attrs,
   opacity ++ map (fun a => snd (fst a)) attrs,
   cov ++ map snd attrs).

(** Lines 176-311: rotation, sim-area selection, normalisation, filling and
    volumes, on the arrays that the first two steps have retained. *)
Definition build_scene (cfg : inputs) (unselected : option frozen)
  (init_pos : list V3) (init_cov : list Cov6) (init_opacity : list R)
  (init_shs : list SH) (init_screen_points : list V3) : result scene :=
  (let pp := preprocessing cfg in
   let material := materials cfg in
   (* rotate and translate object *)
   let rotation_matrices :=
     generate_rotation_matrices (rotation_degree pp) (rotation_axis pp) in
   let rotated_pos := apply_rotations init_pos rotation_matrices in
   (* select a sim area and save params of unselected particles *)
   ' (unselected, rotated_pos, init_cov, init_opacity, init_shs) <-
     match sim_area pp with
     | Some boundary =>
         if Nat.eqb (length boundary) 6 then
           let mask := map (in_sim_area boundary) rotated_pos in
           Ok (Some {| unselected_pos := mask_select (logical_not mask) init_pos;
                       unselected_cov := mask_select (logical_not mask) init_cov;
                       unselected_opacity := mask_select (logical_not mask) init_opacity;
                       unselected_shs := mask_select (logical_not mask) init_shs |},
               mask_select mask rotated_pos,
               mask_select mask init_cov,
               mask_select mask init_opacity,
               mask_select mask init_shs)
         else Err AssertionError
     | None => Ok (unselected, rotated_pos, init_cov, init_opacity, init_shs)
     end ;;
   (* lines 212-217 *)
   ' (transformed_pos, init_cov, scale_origin, original_mean_pos) <-
     normalize rotated_pos init_cov rotation_matrices ;;
   (* fill particles if needed *)
   let gs_num := length transformed_pos in
   let mpm_init_pos :=
     match particle_filling pp with
     | Some fp =>
         fill_particles fp (grid_lim material / IZR (fill_n_grid fp))
           transformed_pos init_opacity init_cov
     | None => transformed_pos
     end in
   let init_len := length mpm_init_pos in
   let mpm_init_vol :=
     get_particle_volume ext mpm_init_pos (n_grid material)
       (grid_lim material / IZR (n_grid material))
       (String.eqb (Config.material material) "sand"%string) in
   let '(shs, opacity, mpm_init_cov, gs_num) :=
     match particle_filling pp with
     | Some fp =>
         if visualize fp then
           let '(shs, opacity, mpm_init_cov) :=
             init_filled_particles (firstn gs_num mpm_init_pos) init_shs
               init_cov init_opacity (skipn gs_num mpm_init_pos) in
           (shs, opacity, mpm_init_cov, length mpm_init_pos)
         else
           (init_shs, init_opacity,
            init_cov ++ repeat zero_cov (length mpm_init_pos - gs_num), gs_num)
     | None =>
         (init_shs, init_opacity,
          init_cov ++ repeat zero_cov (length mpm_init_pos - gs_num), gs_num)
     end in
   Ok {| mpm_init_pos := mpm_init_pos;
         mpm_init_vol := mpm_init_vol;
         mpm_init_cov := mpm_init_cov;
         shs_render := shs;
         opacity_render := opacity;
         gs_num := gs_num;
         init_len := init_len;
         unselected := unselected;
         init_screen_points := init_screen_points;
         rotation_matrices := rotation_matrices;
         scale_origin := scale_origin;
         original_mean_pos := original_mean_pos |})%result.

(** Lines 131-311. *)
Definition preprocess (cfg : inputs) : result scene :=
  let pp := preprocessing cfg in
  (* throw away low opacity kernels *)
  let mask := map (fun o => Rgtb o (opacity_threshold pp)) (gs_opacity cfg) in
  let init_pos := mask_select mask (gs_pos cfg) in
  let init_cov := mask_select mask (gs_cov3D_precomp cfg) in
  let init_opacity := mask_select mask (gs_opacity cfg) in
  let init_screen_points := mask_select mask (gs_screen_points cfg) in
  let init_shs := mask_select mask (gs_shs cfg) in
  (* optimize moving parts only *)
  match moving_pts cfg with
  | Some moving_pts =>
      let freeze_mask := find_far_points init_pos moving_pts (5 / 100) in
      build_scene cfg
        (Some {| unselected_pos := mask_select freeze_mask init_pos;
                 unselected_cov := mask_select freeze_mask init_cov;
                 unselected_opacity := mask_select freeze_mask init_opacity;
                 unselected_shs := mask_select freeze_mask init_shs |})
        (mask_select (logical_not freeze_mask) init_pos)
        (mask_select (logical_not freeze_mask) init_cov)
        (mask_select (logical_not freeze_mask) init_opacity)
        (mask_select (logical_not freeze_mask) init_shs)
        init_screen_points
  | None =>
      build_scene cfg None init_pos init_cov init_opacity init_shs
        init_screen_points
  end.

End Builder.

(** ** Simulation Driver ([mpm_solver_warp]) *)

Section Solver.

Context (ext : collaborators).

Definition set_state (s : MPM_Simulator_WARP) (st : mpm_state) : MPM_Simulator_WARP :=
  {| n_particles := n_particles s; state := st; model := model s;
     collider_params := collider_params s; time := time s |}.

Definition set_model (s : MPM_Simulator_WARP) (m : mpm_model) : MPM_Simulator_WARP :=
  {| n_particles := n_particles s; state := state s; model := m;
     collider_params := collider_params s; time := time s |}.

(** [MPM_Simulator_WARP(10)]: a solver with nothing loaded. *)
Definition empty_solver : MPM_Simulator_WARP :=
  {| n_particles := 0;
     state := {| particle_x := []; particle_v := []; particle_vol := [];
                 particle_F := []; particle_R := []; particle_cov := [] |};
     model := {| E := []; nu := []; mu_N := []; lam_N := []; viscosity := [];
                 mu := []; lam := [] |};
     collider_params := [];
     time := 0 |}.

(** Modelled from the spec: [load_initial_data_from_torch] is missing.
    "One-time; allocates internal simulation state sized to the particle
    count": the given positions, volumes and covariances, particles at rest
    and undeformed. *)
Definition load_initial_data_from_torch (tensor_x : list V3)
  (tensor_volume : list R) (tensor_cov : list Cov6)
  (s : MPM_Simulator_WARP) : MPM_Simulator_WARP :=
  let n := length tensor_x in
  {| n_particles := n;
     state := {| particle_x := tensor_x;
                 particle_v := repeat (mkV3 0 0 0) n;
                 particle_vol := tensor_volume;
                 particle_F := repeat identity n;
                 particle_R := repeat identity n;
                 particle_cov := tensor_cov |};
     model := {| E := repeat 0 n; nu := repeat 0 n; mu_N := repeat 0 n;
                 lam_N := repeat 0 n; viscosity := repeat 0 n;
                 mu := repeat 0 n; lam := repeat 0 n |};
     collider_params := collider_params s;
     time := 0 |}.

(** Modelled from the spec: [set_parameters_dict] is missing.  It "injects
    the current Material Parameter Field values". *)
Definition set_parameters_dict (material : material_params)
  (s : MPM_Simulator_WARP) : MPM_Simulator_WARP :=
  set_model s (material_fields ext material (n_particles s)).

(** Modelled from the spec: [set_boundary_conditions] is missing.  It
    registers the "boundary-condition descriptors keyed to simulation
    time". *)
Definition set_boundary_conditions (bcs : list boundary_condition)
  (s : MPM_Simulator_WARP) : MPM_Simulator_WARP :=
  {| n_particles := n_particles s; state := state s; model := model s;
     collider_params := collider_params s ++ bcs; time := time s |}.

(** Modelled from the spec: [finalize_mu_lam] is missing.  It "derives
    per-particle stiffness from the current Material Parameter Field" and
    leaves the field itself as it is. *)
Definition finalize_mu_lam (s : MPM_Simulator_WARP) : MPM_Simulator_WARP :=
  let m := model s in
  let ml := map (fun en => stiffness ext (fst en) (snd en)) (combine (E m) (nu m)) in
  set_model s
    {| E := E m; nu := nu m; mu_N := mu_N m; lam_N := lam_N m;
       viscosity := viscosity m; mu := map fst ml; lam := map snd ml |}.

(** Modelled from the spec: [p2g2p] is missing.  "Performs one substep":
    the particle state advances under the external numerics; the material
    parameter field is "mutated exclusively by the Calibration Loop's update
    step". *)
Definition p2g2p (dt : R) (s : MPM_Simulator_WARP) : MPM_Simulator_WARP :=
  {| n_particles := n_particles s;
     state := physics ext (model s) (collider_params s) (time s) dt (state s);
     model := model s;
     collider_params := collider_params s;
     time := time s + dt |}.

(** Modelled from the spec: the exports are "a read-only snapshot of
    current particle state". *)
Definition export_particle_x_to_torch (s : MPM_Simulator_WARP) : list V3 :=
  particle_x (state s).
Definition export_particle_cov_to_torch (s : MPM_Simulator_WARP) : list Cov6 :=
  particle_cov (state s).
Definition export_particle_R_to_torch (s : MPM_Simulator_WARP) : list M33 :=
  particle_R (state s).

(** Modelled from the spec: [reset_pos_from_torch] is missing.  It
    "restores positions/covariances/volumes ... without re-deriving material
    fields". *)
Definition reset_pos_from_torch (tensor_x : list V3) (tensor_volume : list R)
  (tensor_cov : list Cov6) (s : MPM_Simulator_WARP) : MPM_Simulator_WARP :=
  let st := state s in
  set_state s
    {| particle_x := tensor_x;
       particle_v := particle_v st;
       particle_vol := tensor_volume;
       particle_F := particle_F st;
       particle_R := particle_R st;
       particle_cov := tensor_cov |}.

(** Modelled from the spec: the [update_param] kernel is missing.  One
    thread per particle applies "a bounded multiplicative-or-additive
    update", "mutating the field in place"; [wp.launch(update_param, n,
    [param, grad, a, b])]. *)
Definition launch_update_param (n : nat) (param grad : list R) (a b : R)
  : list R :=
  map (fun tp =>
         if Nat.ltb (fst tp) n
         then update_param ext (snd tp) (nth (fst tp) grad 0) a b
         else snd tp)
      (combine (seq 0 (length param)) param).

End Solver.

(** ** Frame Coupler (lines 442-481 and 560-599) *)

Section Coupler.

Context (ext : collaborators).

(** Modelled from the spec: [convert_SH] is missing.  "Per-particle
    view-dependent color evaluated from the appearance basis using the
    camera's viewing direction and the particle's simulated rotation
    (falling back to the identity rotation for frozen particles)". *)
Definition convert_SH (shs : list SH) (camera : Camera ext) (pos : list V3)
  (rot : list M33) : list Color :=
  map (fun ish =>
         eval_sh_color ext camera (snd ish)
           (nth (fst ish) pos (mkV3 0 0 0)) (nth (fst ish) rot identity))
      (combine (seq 0 (length shs)) shs).

(** [torch.cat] with the frozen arrays; concatenating [None] raises. *)
Definition cat_unselected (pos : list V3) (cov3D : list Cov6)
  (opacity_render : list R) (shs_render : list SH) (u : option frozen)
  : result (list V3 * list Cov6 * list R * list SH) :=
  match u with
  | Some f =>
      Ok (pos ++ unselected_pos f, cov3D ++ unselected_cov f,
          opacity_render ++ unselected_opacity f,
          shs_render ++ unselected_shs f)
  | None => Err TypeError
  end.

(** From the exported solver state to the rasteriser's arguments. *)
Definition couple (cfg : inputs) (sc : scene) (current_camera : Camera ext)
  (x : list V3) (cov : list Cov6) (R_ : list M33) : result render_args :=
  (let pos := firstn (gs_num sc) x in
   let cov3D := firstn (gs_num sc) cov in
   let rot := firstn (gs_num sc) R_ in
   let pos := firstn (init_len sc) pos in
   let '(pos, cov3D) :=
     from_simulation pos cov3D (scale_origin sc) (original_mean_pos sc)
       (rotation_matrices sc) in
   let opacity := opacity_render sc in
   let shs := shs_render sc in
   ' (pos, cov3D, opacity, shs) <-
     match sim_area (preprocessing cfg) with
     | Some _ =>
         cat_unselected pos cov3D (opacity_render sc) (shs_render sc) (unselected sc)
     | None => Ok (pos, cov3D, opacity, shs)
     end ;;
   ' (pos, cov3D, opacity, shs) <-
     match moving_pts cfg with
     | Some _ =>
         cat_unselected pos cov3D (opacity_render sc) (shs_render sc) (unselected sc)
     | None => Ok (pos, cov3D, opacity, shs)
     end ;;
   let colors_precomp := convert_SH shs current_camera pos rot in
   Ok {| means3D := pos;
         colors_precomp := colors_precomp;
         opacities := opacity;
         cov3D_precomp := cov3D |})%result.

End Coupler.

(** ** Calibration Loop (lines 390-611) *)

Inductive field : Type := FieldE | FieldMuN | FieldLamN | FieldViscosity.

(** What a run does to the simulator, the tape and the file system, in
    order.  [in_tape] tells whether the call executes inside a [with tape:]
    scope. *)
Inductive event : Type :=
| EvLoad (n : nat)
| EvSetParameters
| EvSetBoundaryConditions
| EvTapeReset
| EvFinalize (in_tape : bool)
| EvP2G2P (frame : option nat) (in_tape : bool)
| EvExport (in_tape : bool)
| EvRasterize (frame : nat) (args : render_args)
| EvGuidance
| EvBackward
| EvUpdateParam (f : field) (grad : list R)
| EvResetPos
| EvImwrite (dir file : string)
| EvSaveVideo (dir file : string).

(** A computation on the solver that logs its events and may raise. *)
Definition M (A : Type) : Type :=
  MPM_Simulator_WARP -> list event * MPM_Simulator_WARP * result A.

Definition ret {A : Type} (a : A) : M A := fun s => ([], s, Ok a).

Definition bind {A B : Type} (m : M A) (f : A -> M B) : M B :=
  fun s =>
    match m s with
    | (l1, s1, Ok a) =>
        match f a s1 with
        | (l2, s2, r) => (l1 ++ l2, s2, r)
        end
    | (l1, s1, Err e) => (l1, s1, Err e)
    end.

Definition emit (ev : event) : M unit := fun s => ([ev], s, Ok tt).
Definition get : M MPM_Simulator_WARP := fun s => ([], s, Ok s).
Definition modify (f : MPM_Simulator_WARP -> MPM_Simulator_WARP) : M unit :=
  fun s => ([], f s, Ok tt).
Definition lift {A : Type} (r : result A) : M A := fun s => ([], s, r).

Declare Scope M_scope.
Delimit Scope M_scope with M.
Notation "x <- c ;; k" := (bind c (fun x => k))
  (at level 61, c at next level, right associativity) : M_scope.
Notation "c ;; k" := (bind c (fun _ => k))
  (at level 61, right associativity) : M_scope.

(** [for x in xs: body x], collecting what the bodies return. *)
Fixpoint for_each {A B : Type} (xs : list A) (body : A -> M B) : M (list B) :=
  match xs with
  | [] => ret []
  | x :: xs' =>
      (b <- body x ;; bs <- for_each xs' body ;; ret (b :: bs))%M
  end.

Definition log_of {A : Type} (m : M A) (s : MPM_Simulator_WARP) : list event :=
  fst (fst (m s)).
Definition solver_of {A : Type} (m : M A) (s : MPM_Simulator_WARP)
  : MPM_Simulator_WARP :=
  snd (fst (m s)).
Definition outcome_of {A : Type} (m : M A) (s : MPM_Simulator_WARP) : result A :=
  snd (m s).

(** [s.rjust(width, "0")] *)
Definition rjust0 (width : nat) (s : string) : string :=
  String.concat "" (repeat "0"%string (width - String.length s)) ++ s.

Definition str (n : nat) : string := NilEmpty.string_of_uint (Nat.to_uint n).

(** [f"{frame}.png".rjust(8, "0")] and ['video%02d.mp4' % batch]: the
    name of the image file of a frame, and of the video of a stage. *)
Definition frame_file (frame : nat) : string := rjust0 8 (str frame ++ ".png").
Definition video_file (batch : nat) : string :=
  "video" ++ rjust0 2 (str batch) ++ ".mp4".

Definition stage_num : nat := 8.
Definition frame_per_stage : nat := 16.
Definition n_batches : nat := 50.

(** Lines 504-506 (and 510-512, 515-517, 520-522): the gradient is
    rescaled by its range and shifted by one half; a constant gradient
    gives zeros. *)
Definition rescale_grad (grad : list R) : result (list R) :=
  (max_grad <- tensor_max grad ;;
   min_grad <- tensor_min grad ;;
   Ok (if Req_dec_T (max_grad - min_grad) 0
       then map (fun _ => 0) grad
       else map (fun g => (g - min_grad) / (max_grad - min_grad) - 5 / 10) grad))%result.

(** Lines 484-491: the optimisation losses are summed, weighted and
    averaged over the stage count; with no such term [loss] stays a float,
    which has no [backward]. *)
Definition total_loss (guidance_out : list (string * R)) : result R :=
  let terms :=
    filter (fun nv => String.prefix "loss_" (fst nv)) guidance_out in
  match terms with
  | [] => Err AttributeError
  | _ =>
      Ok (fold_left (fun loss nv => loss + snd nv * (3 / 10000)) terms 0
          / INR stage_num)
  end.

(** Line 393: [int(frame_dt / substep_dt)]. *)
Definition step_per_frame (tp : time_params) : result Z :=
  if Req_dec_T (substep_dt tp) 0 then Err ZeroDivisionError
  else Ok (py_int (frame_dt tp / substep_dt tp)).

Section Calibration.

Context (ext : collaborators).
Context (cfg : inputs) (sc : scene).

Definition substep (frame : option nat) (in_tape : bool) : M unit :=
  (emit (EvP2G2P frame in_tape) ;;
   modify (p2g2p ext (substep_dt (times cfg))))%M.

Definition finalize (in_tape : bool) : M unit :=
  (emit (EvFinalize in_tape) ;; modify (finalize_mu_lam ext))%M.

(** Lines 442-481 and 560-599: export, couple, rasterise. *)
Definition render (frame : nat) (in_tape : bool) : M (Image ext) :=
  (let current_camera := get_camera_view ext frame in
   s <- get ;;
   emit (EvExport in_tape) ;;
   args <- lift (couple ext cfg sc current_camera
                   (export_particle_x_to_torch s)
                   (export_particle_cov_to_torch s)
                   (export_particle_R_to_torch s)) ;;
   emit (EvRasterize frame args) ;;
   ret (rasterize ext current_camera args))%M.

(** Lines 414-415. *)
Definition warm_up (spf : Z) (batch : nat) : M unit :=
  (for_each (range (spf * Z.of_nat (batch mod stage_num)))
     (fun _ => substep None false) ;;
   ret tt)%M.

(** Lines 418-482: one frame of the recorded rollout. *)
Definition recorded_frame (spf : Z) (frame : nat) : M (Image ext) :=
  (for_each (range (spf * (1 + Z.of_nat stage_num) - 1))
     (fun _ => substep (Some frame) false) ;;
   substep (Some frame) true ;;
   render frame true)%M.

(** Lines 417-482. *)
Definition recorded_rollout (spf : Z) : M (list (Image ext)) :=
  for_each (seq 0 frame_per_stage) (recorded_frame spf).

(** One of the four updates of lines 504-523. *)
Definition update_field (f : field) (grad : list R) (a b : R) : M unit :=
  (grad <- lift (rescale_grad grad) ;;
   emit (EvUpdateParam f grad) ;;
   modify (fun s =>
     let m := model s in
     let upd param := launch_update_param ext (n_particles s) param grad a b in
     set_model s
       match f with
       | FieldE =>
           {| E := upd (E m); nu := nu m; mu_N := mu_N m; lam_N := lam_N m;
              viscosity := viscosity m; mu := mu m; lam := lam m |}
       | FieldMuN =>
           {| E := E m; nu := nu m; mu_N := upd (mu_N m); lam_N := lam_N m;
              viscosity := viscosity m; mu := mu m; lam := lam m |}
       | FieldLamN =>
           {| E := E m; nu := nu m; mu_N := mu_N m; lam_N := upd (lam_N m);
              viscosity := viscosity m; mu := mu m; lam := lam m |}
       | FieldViscosity =>
           {| E := E m; nu := nu m; mu_N := mu_N m; lam_N := lam_N m;
              viscosity := upd (viscosity m); mu := mu m; lam := lam m |}
       end))%M.

(** Lines 484-523: score the clip, back-propagate, update the four fields. *)
Definition update_fields (batch : nat) (img_list : list (Image ext)) : M unit :=
  (emit EvGuidance ;;
   loss <- lift (total_loss (guidance ext img_list)) ;;
   emit EvBackward ;;
   s <- get ;;
   let grads := material_grad ext batch loss s in
   update_field FieldE (E_grad grads) 1 (- (4 / 10)) ;;
   update_field FieldMuN (mu_N_grad grads) 1 1 ;;
   update_field FieldLamN (lam_N_grad grads) 1 1 ;;
   update_field FieldViscosity (viscosity_grad grads) 1 2)%M.

(** Line 534. *)
Definition reset : M unit :=
  (emit EvResetPos ;;
   modify (reset_pos_from_torch (mpm_init_pos sc) (mpm_init_vol sc)
             (mpm_init_cov sc)))%M.

(** Lines 538-610: one frame of the output rollout. *)
Definition output_frame (spf : Z) (frame : nat) : M unit :=
  (for_each (range spf) (fun _ => substep (Some frame) false) ;;
   render frame false ;;
   match output_path cfg with
   | None => lift (Err AssertionError)
   | Some dir => emit (EvImwrite dir (frame_file frame))
   end)%M.

(** Lines 535-611. *)
Definition output_rollout (spf : Z) (batch : nat) : M unit :=
  (if Nat.eqb (batch mod 2) 0 then
     finalize false ;;
     for_each (seq 0 (stage_num * frame_per_stage)) (output_frame spf) ;;
     match output_path cfg with
     | None => lift (Err TypeError)
     | Some dir => emit (EvSaveVideo dir (video_file batch))
     end
   else ret tt)%M.

(** Lines 408-482: the differentiable rollout of one stage. *)
Definition differentiable_rollout (spf : Z) (batch : nat)
  : M (list (Image ext)) :=
  (emit EvTapeReset ;;
   finalize true ;;
   warm_up spf batch ;;
   recorded_rollout spf)%M.

(** The body of [for batch in range(50)]. *)
Definition stage (spf : Z) (batch : nat) : M unit :=
  (img_list <- differentiable_rollout spf batch ;;
   update_fields batch img_list ;;
   reset ;;
   output_rollout spf batch)%M.

End Calibration.

(** ** The script *)

Section Main.

Context (ext : collaborators).

(** Lines 316-328 and 390-611, once preprocessing has succeeded. *)
Definition simulate (cfg : inputs) (sc : scene) : M unit :=
  (emit (EvLoad (length (mpm_init_pos sc))) ;;
   modify (load_initial_data_from_torch (mpm_init_pos sc) (mpm_init_vol sc)
             (mpm_init_cov sc)) ;;
   emit EvSetParameters ;;
   modify (set_parameters_dict ext (materials cfg)) ;;
   emit EvSetBoundaryConditions ;;
   modify (set_boundary_conditions (bc_params cfg)) ;;
   spf <- lift (step_per_frame (times cfg)) ;;
   for_each (seq 0 n_batches) (stage ext cfg sc spf) ;;
   ret tt)%M.

Definition main (cfg : inputs)
  : list event * option MPM_Simulator_WARP * result unit :=
  match preprocess ext cfg with
  | Err e => ([], None, Err e)
  | Ok sc =>
      match simulate cfg sc empty_solver with
      | (log, s, r) => (log, Some s, r)
      end
  end.

Definition main_log (cfg : inputs) : list event := fst (fst (main cfg)).

End Main.

(** ** Observations on logs and solver states *)

Definition in_half_interval (x : R) : Prop := - (1 / 2) <= x <= 1 / 2.

(** The tape flags of the substeps that a log records for one frame. *)
Definition substeps_of_frame (frame : nat) (log : list event) : list bool :=
  flat_map (fun ev =>
              match ev with
              | EvP2G2P (Some f) in_tape =>
                  if Nat.eqb f frame then [in_tape] else []
              | _ => []
              end) log.

Definition is_output (ev : event) : bool :=
  match ev with
  | EvImwrite _ _ | EvSaveVideo _ _ => true
  | _ => false
  end.

(** The files that a log writes, in order. *)
Definition output_events (log : list event) : list event := filter is_output log.

Definition is_update (ev : event) : list field :=
  match ev with
  | EvUpdateParam f _ => [f]
  | _ => []
  end.

(** The fields whose update kernel a log launches, in order. *)
Definition updated_fields (log : list event) : list field := flat_map is_update log.

Definition is_finalize (ev : event) : bool :=
  match ev with
  | EvFinalize _ => true
  | _ => false
  end.

(** The four material parameter fields of a solver. *)
Definition four_fields (s : MPM_Simulator_WARP)
  : list R * list R * list R * list R :=
  (E (model s), mu_N (model s), lam_N (model s), viscosity (model s)).

(** The number of substeps that the warm-up loop of stage [batch] runs. *)
Definition warm_up_steps (ext : collaborators) (cfg : inputs) (spf : Z)
  (batch : nat) (s : MPM_Simulator_WARP) : nat :=
  length (log_of (warm_up ext cfg spf batch) s).

(** The claim "boundary-condition setup follows material finalisation" on a
    log: whenever the log sets boundary conditions, an earlier event
    finalises the material. *)
Definition bc_follows_finalization (log : list event) : Prop :=
  forall l1 l2, log = l1 ++ EvSetBoundaryConditions :: l2 ->
                existsb is_finalize l1 = true.

(** The claim "the warm-up count grows with the stage index". *)
Definition warm_up_monotone (ext : collaborators) (cfg : inputs) (spf : Z)
  (s : MPM_Simulator_WARP) : Prop :=
  forall i j : nat, (i < j)%nat ->
    (warm_up_steps ext cfg spf i s <= warm_up_steps ext cfg spf j s)%nat.

(** Every event a computation logs satisfies [P], from any solver state. *)
Definition emits (P : event -> Prop) {A : Type} (m : M A) : Prop :=
  forall s, Forall P (log_of m s).

(** A computation leaves the four material parameter fields as they are. *)
Definition keeps_fields {A : Type} (m : M A) : Prop :=
  forall s, four_fields (solver_of m s) = four_fields s.

(** The substeps of frame [f] in the log of one recorded frame. *)
Definition frame_substeps (spf : Z) (f frame : nat) (l : list event) : Prop :=
  substeps_of_frame f l
  = if Nat.eqb frame f
    then repeat false (Z.to_nat (spf * (1 + Z.of_nat stage_num) - 1)) ++ [true]
    else [].

(** Classes of events, by the part of a stage that logs them. *)
Definition quiet (ev : event) : Prop :=
  is_output ev = false /\ ev <> EvResetPos /\ is_update ev = [] /\
  ev <> EvSetBoundaryConditions.

Definition updating (ev : event) : Prop :=
  is_output ev = false /\ ev <> EvResetPos /\ ev <> EvSetBoundaryConditions.

Definition rolling (ev : event) : Prop :=
  is_update ev = [] /\ ev <> EvSetBoundaryConditions.

(** No two strings of a list are equal. *)
Fixpoint all_distinct (l : list string) : bool :=
  match l with
  | [] => true
  | x :: rest => negb (existsb (String.eqb x) rest) && all_distinct rest
  end.

(** The parallel arrays of the reconstructed scene have one row per
    particle. *)
Definition well_formed (cfg : inputs) : Prop :=
  length (gs_cov3D_precomp cfg) = length (gs_pos cfg) /\
  length (gs_opacity cfg) = length (gs_pos cfg) /\
  length (gs_shs cfg) = length (gs_pos cfg).

(** The number of frozen particles kept for rendering. *)
Definition frozen_count (sc : scene) : nat :=
  match unselected sc with
  | Some f => length (unselected_pos f)
  | None => 0
  end.

(** The four arrays of a rasteriser call have [n] rows each. *)
Definition aligned (n : nat) (args : render_args) : Prop :=
  length (means3D args) = n /\ length (cov3D_precomp args) = n /\
  length (colors_precomp args) = n /\ length (opacities args) = n.

(** The four frozen arrays have one row per frozen particle. *)
Definition frozen_ok (f : frozen) : Prop :=
  length (unselected_cov f) = length (unselected_pos f) /\
  length (unselected_opacity f) = length (unselected_pos f) /\
  length (unselected_shs f) = length (unselected_pos f).

(** ** Concrete scenes *)

Module Examples.

Definition sq_dist (p q : V3) : R :=
  (vx p - vx q) * (vx p - vx q) + (vy p - vy q) * (vy p - vy q)
  + (vz p - vz q) * (vz p - vz q).

(** Collaborators of a static world: a particle is far when it is farther
    than the threshold from every point of the movable region, nothing is
    filled in, the physics leaves every particle where it is, and the
    guidance model returns one optimisation loss. *)
Definition static_world : collaborators :=
  {| Image := render_args;
     Camera := nat;
     is_far_point := fun p pts thres =>
       forallb (fun q => Rgtb (sq_dist p q) (thres * thres)) pts;
     filler := fun _ _ _ _ _ => [];
     filler_attributes := fun _ _ _ _ _ => ([], 0, zero_cov);
     get_particle_volume := fun pos _ dx _ => map (fun _ => dx * dx * dx) pos;
     get_camera_view := fun frame => frame;
     eval_sh_color := fun _ sh _ _ => mkV3 (nth 0 sh 0) (nth 1 sh 0) (nth 2 sh 0);
     rasterize := fun _ args => args;
     guidance := fun _ => [("loss_sds"%string, 1)];
     material_fields := fun _ n =>
       {| E := repeat 1 n; nu := repeat (3 / 10) n; mu_N := repeat 1 n;
          lam_N := repeat 1 n; viscosity := repeat 1 n;
          mu := repeat 0 n; lam := repeat 0 n |};
     stiffness := fun e v => (e / (2 * (1 + v)), e * v / ((1 + v) * (1 - 2 * v)));
     physics := fun _ _ _ _ st => st;
     material_grad := fun _ _ _ =>
       {| E_grad := [0; 1]; mu_N_grad := [1; 1];
          lam_N_grad := [1; 3]; viscosity_grad := [2; 1] |};
     update_param := fun p g a b => p + a * b * g |}.

Definition unit_cov : Cov6 := mkCov6 1 0 0 1 0 1.

Definition jelly : material_params :=
  {| n_grid := 50; grid_lim := 2; material := "jelly" |}.

Definition unit_steps : time_params :=
  {| substep_dt := 1; frame_dt := 1; frame_num := 16 |}.

(** Two particles, no partitioning. *)
Definition two_particles : inputs :=
  {| gs_pos := [mkV3 0 0 0; mkV3 1 0 0];
     gs_cov3D_precomp := [unit_cov; unit_cov];
     gs_screen_points := [mkV3 0 0 0; mkV3 0 0 0];
     gs_opacity := [9 / 10; 8 / 10];
     gs_shs := [[1; 0; 0]; [0; 1; 0]];
     preprocessing :=
       {| opacity_threshold := 2 / 100;
          rotation_degree := []; rotation_axis := [];
          sim_area := None; particle_filling := None |};
     materials := jelly;
     bc_params := [];
     times := unit_steps;
     moving_pts := None;
     output_path := Some "out"%string |}.

(** The same scene with the opacity threshold above every opacity. *)
Definition threshold_too_high : inputs :=
  {| gs_pos := gs_pos two_particles;
     gs_cov3D_precomp := gs_cov3D_precomp two_particles;
     gs_screen_points := gs_screen_points two_particles;
     gs_opacity := gs_opacity two_particles;
     gs_shs := gs_shs two_particles;
     preprocessing :=
       {| opacity_threshold := 95 / 100;
          rotation_degree := []; rotation_axis := [];
          sim_area := None; particle_filling := None |};
     materials := jelly;
     bc_params := [];
     times := unit_steps;
     moving_pts := None;
     output_path := Some "out"%string |}.

(** Four particles with both partitioning steps configured.  Particle 0 is
    far from the movable region; particle 1 is near it but outside the
    sim-area box; particles 2 and 3 are simulated. *)
Definition far_pos : V3 := mkV3 10 0 0.
Definition outside_pos : V3 := mkV3 (3 / 100) 0 0.

Definition both_partitions : inputs :=
  {| gs_pos := [far_pos; outside_pos; mkV3 0 0 0; mkV3 (1 / 100) (1 / 100) 0];
     gs_cov3D_precomp := [unit_cov; mkCov6 2 0 0 2 0 2; unit_cov; unit_cov];
     gs_screen_points := [mkV3 0 0 0; mkV3 0 0 0; mkV3 0 0 0; mkV3 0 0 0];
     gs_opacity := [9 / 10; 8 / 10; 7 / 10; 6 / 10];
     gs_shs := [[1; 0; 0]; [0; 1; 0]; [0; 0; 1]; [1; 1; 1]];
     preprocessing :=
       {| opacity_threshold := 2 / 100;
          rotation_degree := []; rotation_axis := [];
          sim_area := Some [-1; 2 / 100; -1; 1; -1; 1];
          particle_filling := None |};
     materials := jelly;
     bc_params := [];
     times := unit_steps;
     moving_pts := Some [mkV3 0 0 0];
     output_path := Some "out"%string |}.

(** A solver holding the preprocessed scene, as after lines 317-328. *)
Definition loaded (ext : collaborators) (cfg : inputs) (sc : scene)
  : MPM_Simulator_WARP :=
  set_boundary_conditions (bc_params cfg)
    (set_parameters_dict ext (materials cfg)
       (load_initial_data_from_torch (mpm_init_pos sc) (mpm_init_vol sc)
          (mpm_init_cov sc) empty_solver)).

End Examples.

(** ** Further observations *)

From Stdlib Require Import Permutation.

(** Events that execute inside a [with tape:] scope. *)
Definition in_tape_event (ev : event) : bool :=
  match ev with
  | EvFinalize b | EvP2G2P _ b | EvExport b => b
  | _ => false
  end.

(** What the tape records of a log, in order. *)
Definition tape_events (log : list event) : list event := filter in_tape_event log.

(** An event that is not a substep. *)
Definition no_substep (ev : event) : Prop :=
  forall frame b, ev <> EvP2G2P frame b.

Definition is_tape_reset (ev : event) : bool :=
  match ev with
  | EvTapeReset => true
  | _ => false
  end.

(** The frozen opacities and appearance rows that a scene keeps. *)
Definition frozen_opacity (sc : scene) : list R :=
  match unselected sc with
  | Some f => unselected_opacity f
  | None => []
  end.

Definition frozen_shs (sc : scene) : list SH :=
  match unselected sc with
  | Some f => unselected_shs f
  | None => []
  end.

(** Lines 277: filler particles are given appearance rows and rendered. *)
Definition visualized (cfg : inputs) : bool :=
  match particle_filling (preprocessing cfg) with
  | Some fp => visualize fp
  | None => false
  end.

(** The opacity mask of lines 141-142. *)
Definition opacity_mask (cfg : inputs) : list bool :=
  map (fun o => Rgtb o (opacity_threshold (preprocessing cfg))) (gs_opacity cfg).

Definition is_loss (nv : string * R) : bool := String.prefix "loss_" (fst nv).

Definition sum_R (l : list R) : R := fold_right Rplus 0 l.

(** ** Loading the checkpoint (lines 65-84) *)

Inductive load_error : Type := ValueError.

Section LoadCheckpoint.

(** Python's [int] on a string: [None] when it raises [ValueError]. *)
Variable int_of_string : string -> option Z.

(** [x.split('_')[-1]]: what follows the last underscore. *)
Fixpoint last_segment (s : string) : string :=
  match s with
  | EmptyString => EmptyString
  | String c rest =>
      if Ascii.eqb c "_"
      then last_segment rest
      else
        match index 0 "_" rest with
        | Some _ => last_segment rest
        | None => s
        end
  end.

(** The sort key [int(x.split('_')[-1])] of every name, in order; the first
    name whose suffix is not an integer raises. *)
Fixpoint sort_keys (names : list string) : load_error + list (Z * string) :=
  match names with
  | [] => inr []
  | x :: rest =>
      match int_of_string (last_segment x) with
      | None => inl ValueError
      | Some k =>
          match sort_keys rest with
          | inl e => inl e
          | inr ks => inr ((k, x) :: ks)
          end
      end
  end.

Fixpoint insert_by_key (kx : Z * string) (sorted : list (Z * string))
  : list (Z * string) :=
  match sorted with
  | [] => [kx]
  | ky :: rest =>
      if (fst kx <? fst ky)%Z then kx :: sorted
      else ky :: insert_by_key kx rest
  end.

(** [sorted(names, key=...)]: stable, by increasing key. *)
Definition sorted_by_key (keyed : list (Z * string)) : list string :=
  map snd (fold_right insert_by_key [] keyed).

(** Lines 77-78: the [f_rest_] properties of the first element of the PLY
    file, sorted by their index. *)
Definition extra_f_names (properties : list string) : load_error + list string :=
  match sort_keys (filter (String.prefix "f_rest_") properties) with
  | inl e => inl e
  | inr keyed => inr (sorted_by_key keyed)
  end.

(** Line 81: [int(math.sqrt((len(extra_f_names)+3) // 3)) - 1]; the square
    root of a small integer is taken exactly. *)
Definition sh_degree (properties : list string) : load_error + Z :=
  match extra_f_names properties with
  | inl e => inl e
  | inr names =>
      inr (Z.sqrt ((Z.of_nat (length names) + 3) / 3) - 1)%Z
  end.

End LoadCheckpoint.

(** The names under which a model of degree [d] stores its higher-order
    coefficients: [f_rest_0], ..., [f_rest_(3*((d+1)^2-1)-1)]. *)
Definition f_rest_names (d : nat) : list string :=
  map (fun i => ("f_rest_" ++ str i)%string) (seq 0 (3 * ((d + 1) * (d + 1) - 1))).

(** Decimal digits only, as [int] reads them. *)
Definition int_of_decimal (s : string) : option Z :=
  match NilEmpty.uint_of_string s with
  | Some u => match s with EmptyString => None | _ => Some (Z.of_uint u) end
  | None => None
  end.

(** The other per-point properties of a checkpoint, before and after the
    higher-order coefficients. *)
Definition properties_before : list string :=
  ["x"%string; "y"%string; "z"%string; "nx"%string; "ny"%string; "nz"%string;
   "f_dc_0"%string; "f_dc_1"%string; "f_dc_2"%string].

Definition properties_after : list string :=
  ["opacity"%string; "scale_0"%string; "scale_1"%string; "scale_2"%string;
   "rot_0"%string; "rot_1"%string; "rot_2"%string; "rot_3"%string].

(** ** More concrete scenes *)

Module MoreScenes.

Import Examples.

(** Three particles and a sim-area box that leaves the first one out. *)
Definition box_only : inputs :=
  {| gs_pos := [mkV3 5 0 0; mkV3 0 0 0; mkV3 1 1 0];
     gs_cov3D_precomp := [mkCov6 2 0 0 2 0 2; unit_cov; unit_cov];
     gs_screen_points := [mkV3 0 0 0; mkV3 0 0 0; mkV3 0 0 0];
     gs_opacity := [9 / 10; 8 / 10; 7 / 10];
     gs_shs := [[1; 0; 0]; [0; 1; 0]; [0; 0; 1]];
     preprocessing :=
       {| opacity_threshold := 2 / 100;
          rotation_degree := []; rotation_axis := [];
          sim_area := Some [-1; 2; -1; 2; -1; 2];
          particle_filling := None |};
     materials := jelly;
     bc_params := [];
     times := unit_steps;
     moving_pts := None;
     output_path := Some "out"%string |}.

(** The two-particle scene with a sim-area given by four numbers. *)
Definition malformed_box : inputs :=
  {| gs_pos := gs_pos two_particles;
     gs_cov3D_precomp := gs_cov3D_precomp two_particles;
     gs_screen_points := gs_screen_points two_particles;
     gs_opacity := gs_opacity two_particles;
     gs_shs := gs_shs two_particles;
     preprocessing :=
       {| opacity_threshold := 2 / 100;
          rotation_degree := []; rotation_axis := [];
          sim_area := Some [0; 1; 0; 1];
          particle_filling := None |};
     materials := jelly;
     bc_params := [];
     times := unit_steps;
     moving_pts := None;
     output_path := Some "out"%string |}.

(** The two-particle scene with a zero substep. *)
Definition zero_substep : inputs :=
  {| gs_pos := gs_pos two_particles;
     gs_cov3D_precomp := gs_cov3D_precomp two_particles;
     gs_screen_points := gs_screen_points two_particles;
     gs_opacity := gs_opacity two_particles;
     gs_shs := gs_shs two_particles;
     preprocessing := preprocessing two_particles;
     materials := jelly;
     bc_params := [];
     times := {| substep_dt := 0; frame_dt := 1; frame_num := 16 |};
     moving_pts := None;
     output_path := Some "out"%string |}.

(** The two-particle scene run without an output path. *)
Definition no_output_path : inputs :=
  {| gs_pos := gs_pos two_particles;
     gs_cov3D_precomp := gs_cov3D_precomp two_particles;
     gs_screen_points := gs_screen_points two_particles;
     gs_opacity := gs_opacity two_particles;
     gs_shs := gs_shs two_particles;
     preprocessing := preprocessing two_particles;
     materials := jelly;
     bc_params := [];
     times := unit_steps;
     moving_pts := None;
     output_path := None |}.

(** The static world with a guidance model that returns no optimisation
    loss. *)
Definition lossless_world : collaborators :=
  {| Image := Image static_world;
     Camera := Camera static_world;
     is_far_point := is_far_point static_world;
     filler := filler static_world;
     filler_attributes := filler_attributes static_world;
     get_particle_volume := get_particle_volume static_world;
     get_camera_view := get_camera_view static_world;
     eval_sh_color := eval_sh_color static_world;
     rasterize := rasterize static_world;
     guidance := fun _ => [("aux_metric"%string, 1)];
     material_fields := material_fields static_world;
     stiffness := stiffness static_world;
     physics := physics static_world;
     material_grad := material_grad static_world;
     update_param := update_param static_world |}.

End MoreScenes.

(** Events of the output rollout that neither update a field nor reset the
    solver. *)
Definition after_reset (ev : event) : Prop :=
  is_update ev = [] /\ ev <> EvResetPos.

(** * Facts *)

(** ** Linear algebra *)





Lemma transpose_involutive (a : M33) : transpose (transpose a) = a.
Proof. destruct a; reflexivity. Qed.



Lemma orthogonal_transpose (a : M33) : orthogonal a -> orthogonal (transpose a).
Proof.
  intros [Hl Hr]; split; rewrite transpose_involutive; assumption.
Qed.







(** ** Coordinate Normalizer: the inverse pipeline undoes the forward one *)

Section RoundTrip.






Lemma transform2origin_rows (ps tp : list V3) (s : R) (m : V3) :
  transform2origin ps = Ok (tp, s, m) ->
  tp = map (fun q => vscale s (vsub q m)) ps.
Proof.
  destruct ps as [|p rest]; cbn; intros H; [discriminate|].
  now inversion H.
Qed.




End RoundTrip.


(** The forward pipeline succeeds on every non-empty particle set. *)
Lemma apply_rotations_length (rs : list M33) (ps : list V3) :
  length (apply_rotations ps rs) = length ps.
Proof.
  unfold apply_rotations. revert ps.
  induction rs as [|r rs IH]; intros ps; cbn [fold_left]; [reflexivity|].
  rewrite IH. apply length_map.
Qed.


(** *** When the scale is not zero *)










(** ** Gradient normalisation (lines 504-523) *)

Lemma fold_left_Rmax_bounds (l : list R) (a : R) :
  a <= fold_left Rmax l a /\ Forall (fun x => x <= fold_left Rmax l a) l.
Proof.
  revert a. induction l as [|y l IH]; intros a; cbn [fold_left].
  - split; [lra | constructor].
  - destruct (IH (Rmax a y)) as [H1 H2].
    pose proof (Rmax_l a y). pose proof (Rmax_r a y).
    split; [lra|]. constructor; [lra | exact H2].
Qed.

Lemma fold_left_Rmin_bounds (l : list R) (a : R) :
  fold_left Rmin l a <= a /\ Forall (fun x => fold_left Rmin l a <= x) l.
Proof.
  revert a. induction l as [|y l IH]; intros a; cbn [fold_left].
  - split; [lra | constructor].
  - destruct (IH (Rmin a y)) as [H1 H2].
    pose proof (Rmin_l a y). pose proof (Rmin_r a y).
    split; [lra|]. constructor; [lra | exact H2].
Qed.

Lemma fold_left_Rmax_repeat (c : R) (n : nat) : fold_left Rmax (repeat c n) c = c.
Proof.
  induction n as [|n IH]; [reflexivity|].
  cbn [repeat fold_left]. rewrite Rmax_left by lra. exact IH.
Qed.

Lemma fold_left_Rmin_repeat (c : R) (n : nat) : fold_left Rmin (repeat c n) c = c.
Proof.
  induction n as [|n IH]; [reflexivity|].
  cbn [repeat fold_left]. rewrite Rmin_left by lra. exact IH.
Qed.

Lemma map_const_repeat {A B : Type} (b : B) (l : list A) :
  map (fun _ => b) l = repeat b (length l).
Proof. induction l as [|x l IH]; [reflexivity|]. cbn. now rewrite IH. Qed.

Lemma rescale_grad_bounded (g : R) (gs : list R) :
  exists r, rescale_grad (g :: gs) = Ok r /\
            length r = length (g :: gs) /\
            Forall in_half_interval r.
Proof.
  unfold rescale_grad, tensor_max, tensor_min, rbind.
  destruct (fold_left_Rmax_bounds gs g) as [Hmax Hmaxs].
  destruct (fold_left_Rmin_bounds gs g) as [Hmin Hmins].
  set (hi := fold_left Rmax gs g) in *. set (lo := fold_left Rmin gs g) in *.
  assert (Hall : Forall (fun x => lo <= x <= hi) (g :: gs)).
  { constructor; [lra|]. rewrite Forall_forall in *. intros x Hx.
    specialize (Hmaxs x Hx). specialize (Hmins x Hx). lra. }
  destruct (Req_dec_T (hi - lo) 0) as [Hz|Hnz]; eexists; split; try reflexivity.
  - split; [apply length_map|].
    apply Forall_forall. intros x Hx. apply in_map_iff in Hx.
    destruct Hx as [_ [<- _]]. unfold in_half_interval. lra.
  - split; [apply length_map|].
    assert (Hpos : 0 < hi - lo) by lra.
    apply Forall_forall. intros x Hx. apply in_map_iff in Hx.
    destruct Hx as [y [<- Hy]]. rewrite Forall_forall in Hall.
    specialize (Hall y Hy). unfold in_half_interval.
    assert (H0 : 0 <= (y - lo) / (hi - lo)).
    { apply Rmult_le_pos; [lra|]. left. now apply Rinv_0_lt_compat. }
    assert (H1 : (y - lo) / (hi - lo) <= 1).
    { apply (Rmult_le_reg_r (hi - lo)); [exact Hpos|].
      unfold Rdiv. rewrite Rmult_assoc, Rinv_l by lra. lra. }
    lra.
Qed.

Lemma rescale_grad_constant (c : R) (n : nat) :
  rescale_grad (repeat c (S n)) = Ok (repeat 0 (S n)).
Proof.
  unfold rescale_grad, tensor_max, tensor_min, rbind. cbn [repeat].
  rewrite fold_left_Rmax_repeat, fold_left_Rmin_repeat.
  destruct (Req_dec_T (c - c) 0) as [_|Hnz]; [|exfalso; lra].
  f_equal. change (c :: repeat c n) with (repeat c (S n)).
  rewrite map_const_repeat. now rewrite repeat_length.
Qed.

(** C3. For each of the four field quantities and every gradient tensor, the
    gradient handed to the update kernel is the rescaled one, its entries lie
    in [-1/2, 1/2], and a constant gradient tensor is rescaled to the
    all-zero tensor. *)
Theorem C3_rescaled_gradient_bounds (ext : collaborators)
  (f : field) (a b : R) (s : MPM_Simulator_WARP) :
  (forall (g : R) (gs : list R),
      exists r, rescale_grad (g :: gs) = Ok r /\
                log_of (update_field ext f (g :: gs) a b) s = [EvUpdateParam f r] /\
                length r = length (g :: gs) /\
                Forall in_half_interval r) /\
  (forall (c : R) (n : nat),
      rescale_grad (repeat c (S n)) = Ok (repeat 0 (S n)) /\
      log_of (update_field ext f (repeat c (S n)) a b) s
        = [EvUpdateParam f (repeat 0 (S n))]).
Proof.
  split.
  - intros g gs. destruct (rescale_grad_bounded g gs) as [r (Hr & Hlen & Hb)].
    exists r. repeat split; try assumption.
    unfold log_of, update_field, bind, lift, emit, modify. rewrite Hr. reflexivity.
  - intros c n. split; [apply rescale_grad_constant|].
    unfold log_of, update_field, bind, lift, emit, modify.
    rewrite rescale_grad_constant. reflexivity.
Qed.

(** ** Computations on the solver *)

Section MonadFacts.

Context {A B : Type}.

Lemma bind_ok (m : M A) (f : A -> M B) s l1 s1 a :
  m s = (l1, s1, Ok a) ->
  bind m f s = (l1 ++ fst (fst (f a s1)), snd (fst (f a s1)), snd (f a s1)).
Proof.
  intros H. unfold bind. rewrite H. now destruct (f a s1) as [[l2 s2] r].
Qed.

Lemma bind_err (m : M A) (f : A -> M B) s l1 s1 e :
  m s = (l1, s1, Err e) -> bind m f s = (l1, s1, Err e).
Proof. intros H. unfold bind. now rewrite H. Qed.

Lemma log_of_bind (m : M A) (f : A -> M B) s :
  log_of (bind m f) s =
  log_of m s ++ match outcome_of m s with
                | Ok a => log_of (f a) (solver_of m s)
                | Err _ => []
                end.
Proof.
  unfold log_of, outcome_of, solver_of, bind.
  destruct (m s) as [[l1 s1] [a|e]]; cbn.
  - now destruct (f a s1) as [[l2 s2] r].
  - now rewrite app_nil_r.
Qed.

Lemma solver_of_bind (m : M A) (f : A -> M B) s :
  solver_of (bind m f) s =
  match outcome_of m s with
  | Ok a => solver_of (f a) (solver_of m s)
  | Err _ => solver_of m s
  end.
Proof.
  unfold outcome_of, solver_of, bind.
  destruct (m s) as [[l1 s1] [a|e]]; cbn; [|reflexivity].
  now destruct (f a s1) as [[l2 s2] r].
Qed.

Lemma outcome_of_bind (m : M A) (f : A -> M B) s :
  outcome_of (bind m f) s =
  match outcome_of m s with
  | Ok a => outcome_of (f a) (solver_of m s)
  | Err e => Err e
  end.
Proof.
  unfold outcome_of, solver_of, bind.
  destruct (m s) as [[l1 s1] [a|e]]; cbn; [|reflexivity].
  now destruct (f a s1) as [[l2 s2] r].
Qed.

Lemma emits_bind (P : event -> Prop) (m : M A) (f : A -> M B) :
  emits P m -> (forall a, emits P (f a)) -> emits P (bind m f).
Proof.
  intros Hm Hf s. rewrite log_of_bind. apply Forall_app. split; [apply Hm|].
  destruct (outcome_of m s); [apply Hf | constructor].
Qed.

Lemma keeps_fields_bind (m : M A) (f : A -> M B) :
  keeps_fields m -> (forall a, keeps_fields (f a)) -> keeps_fields (bind m f).
Proof.
  intros Hm Hf s. rewrite solver_of_bind.
  destruct (outcome_of m s); [rewrite Hf|]; apply Hm.
Qed.

End MonadFacts.

Lemma emits_for_each {A B : Type} (P : event -> Prop) (xs : list A) (body : A -> M B) :
  (forall x, emits P (body x)) -> emits P (for_each xs body).
Proof.
  intros Hb. induction xs as [|x xs IH]; cbn [for_each].
  - intros s. constructor.
  - apply emits_bind; [apply Hb|]. intros b.
    apply emits_bind; [apply IH|]. intros bs s. constructor.
Qed.

Lemma keeps_fields_for_each {A B : Type} (xs : list A) (body : A -> M B) :
  (forall x, keeps_fields (body x)) -> keeps_fields (for_each xs body).
Proof.
  intros Hb. induction xs as [|x xs IH]; cbn [for_each].
  - intros s. reflexivity.
  - apply keeps_fields_bind; [apply Hb|]. intros b.
    apply keeps_fields_bind; [apply IH|]. intros bs s. reflexivity.
Qed.

(** A loop whose body always succeeds runs all its iterations; its log is
    the concatenation of the logs of the iterations. *)
Lemma for_each_spec {A B : Type} (P : A -> list event -> Prop) (xs : list A) (body : A -> M B) :
  (forall x s, In x xs ->
     exists l s' b, body x s = (l, s', Ok b) /\ P x l) ->
  forall s, exists ls s' bs,
    for_each xs body s = (concat ls, s', Ok bs) /\ Forall2 P xs ls.
Proof.
  induction xs as [|x xs IH]; intros Hb s; cbn [for_each].
  - exists [], s, []. split; [reflexivity | constructor].
  - destruct (Hb x s (or_introl eq_refl)) as (l & s1 & b & Hx & HP).
    destruct (IH (fun y t Hy => Hb y t (or_intror Hy)) s1)
      as (ls & s2 & bs & Hxs & HF).
    exists (l :: ls), s2, (b :: bs). split; [|now constructor].
    rewrite (bind_ok _ _ _ Hx).
    rewrite (bind_ok _ _ _ Hxs). cbn. now rewrite app_nil_r.
Qed.

Lemma emits_emit (P : event -> Prop) (ev : event) : P ev -> emits P (emit ev).
Proof. intros H s. cbn. constructor; [exact H | constructor]. Qed.

Lemma emits_silent (P : event -> Prop) {A : Type} (m : M A) :
  (forall s, log_of m s = []) -> emits P m.
Proof. intros H s. rewrite H. constructor. Qed.

Lemma emits_weaken (P Q : event -> Prop) {A : Type} (m : M A) :
  (forall ev, P ev -> Q ev) -> emits P m -> emits Q m.
Proof. intros HPQ Hm s. eapply Forall_impl; [exact HPQ | apply Hm]. Qed.

Lemma keeps_fields_modify (f : MPM_Simulator_WARP -> MPM_Simulator_WARP) :
  (forall s, four_fields (f s) = four_fields s) -> keeps_fields (modify f).
Proof. intros H s. apply H. Qed.

Lemma keeps_fields_pure {A : Type} (m : M A) :
  (forall s, solver_of m s = s) -> keeps_fields m.
Proof. intros H s. now rewrite H. Qed.

(** ** Particle Set Builder *)

(** What preprocessing fixes about the frozen arrays: they exist as soon as
    one of the two partitioning steps is configured. *)
Lemma preprocess_unselected (ext : collaborators) (cfg : inputs) (sc : scene) :
  preprocess ext cfg = Ok sc ->
  (sim_area (preprocessing cfg) <> None \/ moving_pts cfg <> None) ->
  exists f, unselected sc = Some f.
Proof.
  unfold preprocess, build_scene. intros H Hcfg.
  destruct (moving_pts cfg) as [pts|]; destruct (sim_area (preprocessing cfg)) as [b|];
    try (destruct Hcfg; congruence);
    cbn [rbind] in H;
    try (destruct (Nat.eqb (length b) 6); [|discriminate]);
    cbn [rbind] in H;
    match type of H with
    | context [normalize ?p ?c ?r] =>
        destruct (normalize p c r) as [[[[tp ic] so] om]|e]; [|discriminate]
    end;
    cbn [rbind] in H;
    destruct (particle_filling (preprocessing cfg)) as [fp|];
    try destruct (visualize fp);
    inversion H; cbn; eauto.
Qed.

Lemma mask_select_nil_r {A : Type} (mask : list bool) :
  mask_select mask (@nil A) = [].
Proof. unfold mask_select. now destruct mask. Qed.

Lemma mask_select_all_false {A : Type} (mask : list bool) (xs : list A) :
  Forall (fun b => b = false) mask -> mask_select mask xs = [].
Proof.
  unfold mask_select. intros H. revert xs.
  induction H as [|b mask Hb _ IH]; intros [|x xs]; cbn; try reflexivity.
  subst b. cbn. apply IH.
Qed.

Lemma apply_rotations_nil (rs : list M33) : apply_rotations [] rs = [].
Proof. unfold apply_rotations. induction rs; cbn; auto. Qed.

Lemma Rgtb_false (x y : R) : x <= y -> Rgtb x y = false.
Proof. intros H. unfold Rgtb. destruct (Rlt_dec y x); [lra | reflexivity]. Qed.

Lemma Rgtb_true (x y : R) : y < x -> Rgtb x y = true.
Proof. intros H. unfold Rgtb. destruct (Rlt_dec y x); [reflexivity | lra]. Qed.

Lemma Rltb_false (x y : R) : y <= x -> Rltb x y = false.
Proof. intros H. unfold Rltb. destruct (Rlt_dec x y); [lra | reflexivity]. Qed.

Lemma Rltb_true (x y : R) : x < y -> Rltb x y = true.
Proof. intros H. unfold Rltb. destruct (Rlt_dec x y); [reflexivity | lra]. Qed.

(** Preprocessing raises when no particle passes the opacity threshold. *)
Lemma preprocess_empty_retained (ext : collaborators) (cfg : inputs) :
  Forall (fun o => o <= opacity_threshold (preprocessing cfg)) (gs_opacity cfg) ->
  exists e, preprocess ext cfg = Err e.
Proof.
  intros Hlow. unfold preprocess, build_scene.
  set (mask := map _ (gs_opacity cfg)).
  assert (Hmask : forall (A : Type) (xs : list A), mask_select mask xs = []).
  { intros A xs. apply mask_select_all_false. subst mask.
    apply Forall_forall. intros b Hb. apply in_map_iff in Hb.
    destruct Hb as [o [<- Ho]]. apply Rgtb_false.
    rewrite Forall_forall in Hlow. now apply Hlow. }
  rewrite !Hmask.
  destruct (moving_pts cfg) as [pts|];
    destruct (sim_area (preprocessing cfg)) as [b|];
    cbn [find_far_points map logical_not]; rewrite ?mask_select_nil_r;
    rewrite apply_rotations_nil;
    try (destruct (Nat.eqb (length b) 6); [|eexists; reflexivity]);
    cbn [map rbind]; rewrite ?mask_select_nil_r; cbn; eexists; reflexivity.
Qed.

(** C5. When the opacity threshold is at or above the opacity of every
    particle, the run fails with an error before the solver is loaded: it
    logs no event and there is no solver. *)
Theorem C5_empty_retained_set_fails_fast (ext : collaborators) (cfg : inputs) :
  Forall (fun o => o <= opacity_threshold (preprocessing cfg)) (gs_opacity cfg) ->
  exists e, main ext cfg = ([], None, Err e).
Proof.
  intros Hlow. destruct (preprocess_empty_retained ext cfg Hlow) as [e He].
  exists e. unfold main. now rewrite He.
Qed.

(** ** The recorded rollout (lines 417-482) *)

Section Rollout.

Context (ext : collaborators) (cfg : inputs) (sc : scene).
Hypothesis Hscene : preprocess ext cfg = Ok sc.

Lemma substep_run (frame : option nat) (in_tape : bool) s :
  substep ext cfg frame in_tape s
  = ([EvP2G2P frame in_tape], p2g2p ext (substep_dt (times cfg)) s, Ok tt).
Proof. reflexivity. Qed.

Lemma substeps_loop {X : Type} (xs : list X) (frame : option nat) (in_tape : bool) :
  forall s, exists s' bs,
    for_each xs (fun _ => substep ext cfg frame in_tape) s
    = (repeat (EvP2G2P frame in_tape) (length xs), s', Ok bs).
Proof.
  induction xs as [|x xs IH]; intros s; cbn [for_each length repeat].
  - now exists s, [].
  - destruct (IH (p2g2p ext (substep_dt (times cfg)) s)) as (s' & bs & H).
    exists s', (tt :: bs).
    rewrite (bind_ok _ _ _ (substep_run frame in_tape s)).
    rewrite (bind_ok _ _ _ H). cbn. now rewrite app_nil_r.
Qed.

Lemma couple_ok (camera : Camera ext) x cov rot :
  exists args, couple ext cfg sc camera x cov rot = Ok args.
Proof.
  unfold couple.
  destruct (from_simulation _ _ _ _ _) as [pos cov3D].
  pose proof (preprocess_unselected ext cfg Hscene) as Hu.
  destruct (sim_area (preprocessing cfg)) as [b|];
    destruct (moving_pts cfg) as [pts|];
    try (destruct Hu as [f Hf]; [solve [left; discriminate | right; discriminate]|];
         rewrite Hf);
    cbn; eexists; reflexivity.
Qed.

Lemma render_run (frame : nat) (in_tape : bool) s :
  exists args,
    render ext cfg sc frame in_tape s
    = ([EvExport in_tape; EvRasterize frame args], s,
       Ok (rasterize ext (get_camera_view ext frame) args)).
Proof.
  destruct (couple_ok (get_camera_view ext frame)
              (export_particle_x_to_torch s) (export_particle_cov_to_torch s)
              (export_particle_R_to_torch s)) as [args Hargs].
  exists args. unfold render, bind, get, emit, lift, ret. rewrite Hargs.
  reflexivity.
Qed.

Lemma length_range (n : Z) : length (range n) = Z.to_nat n.
Proof. unfold range. apply length_seq. Qed.

Lemma recorded_frame_run (spf : Z) (frame : nat) s :
  exists args s' img,
    recorded_frame ext cfg sc spf frame s
    = (repeat (EvP2G2P (Some frame) false)
         (Z.to_nat (spf * (1 + Z.of_nat stage_num) - 1))
       ++ [EvP2G2P (Some frame) true; EvExport true; EvRasterize frame args],
       s', Ok img).
Proof.
  unfold recorded_frame.
  destruct (substeps_loop (range (spf * (1 + Z.of_nat stage_num) - 1))
              (Some frame) false s) as (s1 & bs & H1).
  rewrite length_range in H1.
  destruct (render_run frame true (p2g2p ext (substep_dt (times cfg)) s1))
    as [args Hr].
  exists args. do 2 eexists.
  rewrite (bind_ok _ _ _ H1).
  rewrite (bind_ok _ _ _ (substep_run (Some frame) true s1)).
  rewrite Hr. reflexivity.
Qed.

Lemma substeps_of_frame_app (f : nat) (l1 l2 : list event) :
  substeps_of_frame f (l1 ++ l2) = substeps_of_frame f l1 ++ substeps_of_frame f l2.
Proof. apply flat_map_app. Qed.

Lemma substeps_of_frame_repeat (f frame : nat) (in_tape : bool) (n : nat) :
  substeps_of_frame f (repeat (EvP2G2P (Some frame) in_tape) n)
  = if Nat.eqb frame f then repeat in_tape n else [].
Proof.
  induction n as [|n IH]; cbn [repeat]; [now destruct (Nat.eqb frame f)|].
  unfold substeps_of_frame in *. cbn [flat_map]. rewrite IH.
  now destruct (Nat.eqb frame f).
Qed.

Lemma frames_substeps (spf : Z) (f : nat) (n a : nat) (ls : list (list event)) :
  Forall2 (frame_substeps spf f) (seq a n) ls ->
  substeps_of_frame f (concat ls)
  = if (a <=? f)%nat && (f <? a + n)%nat
    then repeat false (Z.to_nat (spf * (1 + Z.of_nat stage_num) - 1)) ++ [true]
    else [].
Proof.
  revert a ls. induction n as [|n IH]; intros a ls H; cbn [seq] in H.
  - inversion H; subst. cbn [concat]. unfold substeps_of_frame. cbn [flat_map].
    destruct (Nat.leb_spec a f), (Nat.ltb_spec f (a + 0));
      cbn [andb]; try reflexivity; lia.
  - inversion H as [|x l xs ls' Hx Hrest]; subst. cbn [concat].
    rewrite substeps_of_frame_app, (IH _ _ Hrest). unfold frame_substeps in Hx.
    rewrite Hx.
    destruct (Nat.eqb_spec a f), (Nat.leb_spec a f), (Nat.leb_spec (S a) f),
      (Nat.ltb_spec f (a + S n)), (Nat.ltb_spec f (S a + n));
      cbn [andb app]; rewrite ?app_nil_r; try reflexivity; lia.
Qed.

End Rollout.

(** The recorded rollout runs all its frames; each frame logs its substeps
    outside the tape, then one substep inside. *)
Lemma recorded_rollout_run (ext : collaborators) (cfg : inputs) (sc : scene)
  (spf : Z) (s : MPM_Simulator_WARP) :
  preprocess ext cfg = Ok sc ->
  exists log s' imgs,
    recorded_rollout ext cfg sc spf s = (log, s', Ok imgs) /\
    forall frame, (frame < frame_per_stage)%nat ->
      substeps_of_frame frame log
      = repeat false (Z.to_nat (spf * (1 + Z.of_nat stage_num) - 1)) ++ [true].
Proof.
  intros Hscene. unfold recorded_rollout.
  destruct (for_each_spec
              (fun frame l => forall f, frame_substeps spf f frame l)
              (seq 0 frame_per_stage) (recorded_frame ext cfg sc spf)) with (s := s)
    as (ls & s' & imgs & Hrun & Hall).
  { intros frame t _.
    destruct (@recorded_frame_run ext cfg sc Hscene spf frame t) as (args & t' & img & H).
    exists (repeat (EvP2G2P (Some frame) false)
              (Z.to_nat (spf * (1 + Z.of_nat stage_num) - 1))
            ++ [EvP2G2P (Some frame) true; EvExport true; EvRasterize frame args]),
      t', img.
    split; [exact H|]. intros f. unfold frame_substeps.
    rewrite substeps_of_frame_app, substeps_of_frame_repeat. cbn.
    destruct (Nat.eqb frame f); reflexivity. }
  exists (concat ls), s', imgs. split; [exact Hrun|].
  intros frame Hlt.
  rewrite (@frames_substeps spf frame frame_per_stage 0%nat ls).
  - destruct (Nat.leb_spec 0 frame), (Nat.ltb_spec frame (0 + frame_per_stage));
      cbn [andb]; try reflexivity; lia.
  - eapply Forall2_impl; [|exact Hall]. intros a l H. apply H.
Qed.

(** C8. In the recorded rollout of a stage every output frame runs to its
    end, and for every output frame exactly one substep, the last one of the
    frame, executes inside the tape scope; the substeps before it execute
    outside. *)
Theorem C8_last_substep_in_tape (ext : collaborators) (cfg : inputs) (sc : scene)
  (spf : Z) (s : MPM_Simulator_WARP) :
  preprocess ext cfg = Ok sc ->
  exists log s' imgs,
    recorded_rollout ext cfg sc spf s = (log, s', Ok imgs) /\
    forall frame, (frame < frame_per_stage)%nat ->
      substeps_of_frame frame log
      = repeat false (Z.to_nat (spf * (1 + Z.of_nat stage_num) - 1)) ++ [true].
Proof. apply recorded_rollout_run. Qed.

(** ** The stage: warm-up, update, reset, output rollout *)

Lemma bind_emit {B : Type} (ev : event) (k : unit -> M B) s :
  bind (emit ev) k s
  = (ev :: fst (fst (k tt s)), snd (fst (k tt s)), snd (k tt s)).
Proof. unfold bind, emit. now destruct (k tt s) as [[l s'] r]. Qed.

Lemma bind_modify {B : Type} (f : MPM_Simulator_WARP -> MPM_Simulator_WARP)
  (k : unit -> M B) s :
  bind (modify f) k s = k tt (f s).
Proof. unfold bind, modify. now destruct (k tt (f s)) as [[l s'] r]. Qed.

Ltac emits_tac :=
  repeat first
    [ apply emits_bind; [|intros ?]
    | apply emits_for_each; intros ?
    | apply emits_emit
    | apply emits_silent; intros ?; reflexivity
    | match goal with
      | |- emits _ (match ?x with _ => _ end) => destruct x
      end ].

Ltac keeps_tac :=
  repeat first
    [ apply keeps_fields_bind; [|intros ?]
    | apply keeps_fields_for_each; intros ?
    | apply keeps_fields_pure; intros ?; reflexivity
    | apply keeps_fields_modify; intros ?; reflexivity
    | match goal with
      | |- keeps_fields (match ?x with _ => _ end) => destruct x
      end ].

Section Stage.

Context (ext : collaborators) (cfg : inputs) (sc : scene).

(** *** Warm-up *)

Lemma warm_up_steps_eq (spf : Z) (batch : nat) s :
  warm_up_steps ext cfg spf batch s
  = Z.to_nat (spf * Z.of_nat (batch mod stage_num)).
Proof.
  unfold warm_up_steps, warm_up, log_of.
  destruct (substeps_loop ext cfg (range (spf * Z.of_nat (batch mod stage_num)))
              None false s) as (s' & bs & H).
  rewrite (bind_ok _ _ _ H). cbn. rewrite app_nil_r, repeat_length.
  apply length_range.
Qed.

(** *** What each part of a stage logs *)

Lemma differentiable_rollout_quiet (spf : Z) (batch : nat) :
  emits quiet (differentiable_rollout ext cfg sc spf batch).
Proof.
  unfold differentiable_rollout, finalize, warm_up, recorded_rollout,
    recorded_frame, render, substep.
  emits_tac; repeat split; discriminate.
Qed.

Lemma update_fields_updating (batch : nat) (imgs : list (Image ext)) :
  emits updating (update_fields ext batch imgs).
Proof.
  unfold update_fields, update_field.
  emits_tac; repeat split; discriminate.
Qed.

Lemma output_rollout_rolling (spf : Z) (batch : nat) :
  emits rolling (output_rollout ext cfg sc spf batch).
Proof.
  unfold output_rollout, output_frame, finalize, render, substep.
  destruct (Nat.eqb (batch mod 2) 0); emits_tac; repeat split; discriminate.
Qed.

Lemma update_fields_log (batch : nat) (imgs : list (Image ext)) s :
  outcome_of (update_fields ext batch imgs) s = Ok tt ->
  updated_fields (log_of (update_fields ext batch imgs) s)
  = [FieldE; FieldMuN; FieldLamN; FieldViscosity].
Proof.
  unfold update_fields, update_field, outcome_of, log_of, bind, emit, lift,
    get, modify.
  destruct (total_loss _) as [loss|e]; cbn; [|discriminate].
  repeat match goal with
         | |- context [rescale_grad ?g] =>
             destruct (rescale_grad g); cbn; try discriminate
         end.
  reflexivity.
Qed.

Lemma reset_run s :
  reset sc s
  = ([EvResetPos],
     reset_pos_from_torch (mpm_init_pos sc) (mpm_init_vol sc) (mpm_init_cov sc) s,
     Ok tt).
Proof. reflexivity. Qed.

Lemma output_events_app (l1 l2 : list event) :
  output_events (l1 ++ l2) = output_events l1 ++ output_events l2.
Proof. apply filter_app. Qed.

Lemma updated_fields_app (l1 l2 : list event) :
  updated_fields (l1 ++ l2) = updated_fields l1 ++ updated_fields l2.
Proof. apply flat_map_app. Qed.

Lemma output_events_quiet (P : event -> Prop) (l : list event) :
  (forall ev, P ev -> is_output ev = false) ->
  Forall P l -> output_events l = [].
Proof.
  intros HP H. induction H as [|ev l Hev _ IH]; [reflexivity|].
  unfold output_events in *. cbn. now rewrite (HP _ Hev).
Qed.

Lemma updated_fields_quiet (P : event -> Prop) (l : list event) :
  (forall ev, P ev -> is_update ev = []) ->
  Forall P l -> updated_fields l = [].
Proof.
  intros HP H. induction H as [|ev l Hev _ IH]; [reflexivity|].
  unfold updated_fields in *. cbn. now rewrite (HP _ Hev).
Qed.

Lemma not_in_quiet (P : event -> Prop) (ev : event) (l : list event) :
  (forall e, P e -> e <> ev) -> Forall P l -> ~ In ev l.
Proof.
  intros HP H Hin. rewrite Forall_forall in H. exact (HP _ (H _ Hin) eq_refl).
Qed.

(** *** The output rollout *)

Hypothesis Hscene : preprocess ext cfg = Ok sc.
Variable dir : string.
Hypothesis Hdir : output_path cfg = Some dir.

Lemma output_frame_run (spf : Z) (frame : nat) s :
  exists args s',
    output_frame ext cfg sc spf frame s
    = (repeat (EvP2G2P (Some frame) false) (Z.to_nat spf)
       ++ [EvExport false; EvRasterize frame args;
           EvImwrite dir (frame_file frame)],
       s', Ok tt).
Proof.
  unfold output_frame. rewrite Hdir.
  destruct (substeps_loop ext cfg (range spf) (Some frame) false s)
    as (s1 & bs & H1).
  rewrite length_range in H1.
  destruct (@render_run ext cfg sc Hscene frame false s1) as [args Hr].
  exists args, s1.
  rewrite (bind_ok _ _ _ H1). rewrite (bind_ok _ _ _ Hr). reflexivity.
Qed.

Lemma output_events_repeat_substep (frame : option nat) (b : bool) (n : nat) :
  output_events (repeat (EvP2G2P frame b) n) = [].
Proof. induction n; [reflexivity | exact IHn]. Qed.

Lemma output_events_frames (xs : list nat) (ls : list (list event)) :
  Forall2 (fun frame l =>
             output_events l = [EvImwrite dir (frame_file frame)])
          xs ls ->
  output_events (concat ls)
  = map (fun frame => EvImwrite dir (frame_file frame)) xs.
Proof.
  induction 1 as [|frame l xs ls Hl _ IH]; [reflexivity|].
  cbn [concat map]. rewrite output_events_app, Hl, IH. reflexivity.
Qed.

Lemma output_rollout_run (spf : Z) (batch : nat) s :
  exists l s',
    output_rollout ext cfg sc spf batch s = (l, s', Ok tt) /\
    output_events l
    = if Nat.eqb (batch mod 2) 0
      then map (fun frame => EvImwrite dir (frame_file frame))
             (seq 0 (stage_num * frame_per_stage))
           ++ [EvSaveVideo dir (video_file batch)]
      else [].
Proof.
  unfold output_rollout.
  destruct (Nat.eqb (batch mod 2) 0); [|exists [], s; split; reflexivity].
  destruct (for_each_spec
              (fun frame l =>
                 output_events l = [EvImwrite dir (frame_file frame)])
              (seq 0 (stage_num * frame_per_stage))
              (output_frame ext cfg sc spf)) with (s := finalize_mu_lam ext s)
    as (ls & s' & bs & Hrun & Hall).
  { intros frame t _.
    destruct (output_frame_run spf frame t) as (args & t' & H).
    do 3 eexists. split; [exact H|].
    rewrite output_events_app, output_events_repeat_substep. reflexivity. }
  exists (EvFinalize false
            :: concat ls
            ++ [EvSaveVideo dir (video_file batch)]), s'.
  split.
  - unfold finalize. rewrite Hdir.
    rewrite (bind_ok _ _ _ (eq_refl : bind (emit (EvFinalize false))
                                        (fun _ => modify (finalize_mu_lam ext)) s
                                      = ([EvFinalize false], finalize_mu_lam ext s, Ok tt))).
    rewrite (bind_ok _ _ _ Hrun). reflexivity.
  - change (output_events (EvFinalize false :: ?l)) with (output_events l).
    rewrite output_events_app, (output_events_frames Hall). reflexivity.
Qed.

(** *** The whole stage, once it has reached its reset *)

Lemma stage_reached_reset (spf : Z) (batch : nat) s :
  In EvResetPos (log_of (stage ext cfg sc spf batch) s) ->
  exists imgs,
    let s1 := solver_of (differentiable_rollout ext cfg sc spf batch) s in
    let s2 := solver_of (update_fields ext batch imgs) s1 in
    outcome_of (differentiable_rollout ext cfg sc spf batch) s = Ok imgs /\
    outcome_of (update_fields ext batch imgs) s1 = Ok tt /\
    log_of (stage ext cfg sc spf batch) s
    = log_of (differentiable_rollout ext cfg sc spf batch) s
      ++ log_of (update_fields ext batch imgs) s1
      ++ EvResetPos
         :: log_of (output_rollout ext cfg sc spf batch)
              (reset_pos_from_torch (mpm_init_pos sc) (mpm_init_vol sc)
                 (mpm_init_cov sc) s2).
Proof.
  intros Hin.
  pose proof (differentiable_rollout_quiet spf batch s) as Hq1.
  unfold stage in *. rewrite log_of_bind in *.
  destruct (outcome_of (differentiable_rollout ext cfg sc spf batch) s)
    as [imgs|e] eqn:Ho1.
  2:{ exfalso. rewrite app_nil_r in Hin. revert Hin.
      eapply not_in_quiet; [|exact Hq1]. intros e0 He0. apply He0. }
  set (s1 := solver_of (differentiable_rollout ext cfg sc spf batch) s) in *.
  pose proof (update_fields_updating batch imgs s1) as Hq2.
  rewrite log_of_bind in *.
  destruct (outcome_of (update_fields ext batch imgs) s1) as [[]|e] eqn:Ho2.
  2:{ exfalso. rewrite app_nil_r in Hin.
      apply in_app_or in Hin. destruct Hin as [Hin|Hin]; revert Hin.
      - eapply not_in_quiet; [|exact Hq1]. intros e0 He0. apply He0.
      - eapply not_in_quiet; [|exact Hq2]. intros e0 He0. apply He0. }
  exists imgs. cbv zeta. fold s1. split; [reflexivity|]. split; [exact Ho2|].
  rewrite log_of_bind. reflexivity.
Qed.

End Stage.

(** ** Output cadence *)

Lemma all_distinct_NoDup (l : list string) : all_distinct l = true -> NoDup l.
Proof.
  induction l as [|x l IH]; cbn; intros H; constructor;
    apply andb_prop in H; destruct H as [Hx Hl].
  - intros Hin. apply negb_true_iff in Hx.
    assert (existsb (String.eqb x) l = true); [|congruence].
    apply existsb_exists. exists x. split; [exact Hin | apply String.eqb_refl].
  - now apply IH.
Qed.

Example frame_file_0 : frame_file 0 = "0000.png"%string.
Proof. reflexivity. Qed.

Example frame_file_127 : frame_file 127 = "0127.png"%string.
Proof. reflexivity. Qed.

Example video_file_48 : video_file 48 = "video48.mp4"%string.
Proof. reflexivity. Qed.

(** The 128 frames of an output rollout go to 128 different files. *)
Lemma frame_files_distinct :
  NoDup (map frame_file (seq 0 (stage_num * frame_per_stage))).
Proof. apply all_distinct_NoDup. vm_compute. reflexivity. Qed.


(** ** Warm-up *)

(** C10, as the code has it.  The warm-up of stage [b] runs
    step_per_frame * (b mod stage_num) substeps: within a block of
    stage_num consecutive stages the count does not decrease with the stage
    index, and it is back to zero at every multiple of stage_num. *)
Theorem C10_warm_up_grows_within_block (ext : collaborators) (cfg : inputs)
  (spf : Z) (s : MPM_Simulator_WARP) (i j : nat) :
  (i <= j)%nat ->
  (i / stage_num = j / stage_num)%nat ->
  (warm_up_steps ext cfg spf i s <= warm_up_steps ext cfg spf j s)%nat /\
  warm_up_steps ext cfg spf j s = Z.to_nat (spf * Z.of_nat (j mod stage_num)) /\
  warm_up_steps ext cfg spf (stage_num * (j / stage_num)) s = 0%nat.
Proof.
  intros Hij Hblock. rewrite !warm_up_steps_eq.
  assert (Hmod : (i mod stage_num <= j mod stage_num)%nat).
  { pose proof (Nat.div_mod_eq i stage_num). pose proof (Nat.div_mod_eq j stage_num).
    rewrite Hblock in *. lia. }
  repeat split.
  - destruct (Z.le_gt_cases 0 spf).
    + assert (spf * Z.of_nat (i mod stage_num)
              <= spf * Z.of_nat (j mod stage_num))%Z by nia.
      lia.
    + assert (spf * Z.of_nat (i mod stage_num) <= 0)%Z by nia. lia.
  - rewrite Nat.mul_comm, Nat.Div0.mod_mul. now rewrite Z.mul_0_r.
Qed.

(** ** Reset and the material parameter field *)

Section Fields.

Context (ext : collaborators) (cfg : inputs) (sc : scene).

Lemma output_rollout_keeps_fields (spf : Z) (batch : nat) :
  keeps_fields (output_rollout ext cfg sc spf batch).
Proof.
  unfold output_rollout, output_frame, finalize, render, substep.
  destruct (Nat.eqb (batch mod 2) 0); keeps_tac.
Qed.

Lemma differentiable_rollout_keeps_fields (spf : Z) (batch : nat) :
  keeps_fields (differentiable_rollout ext cfg sc spf batch).
Proof.
  unfold differentiable_rollout, finalize, warm_up, recorded_rollout,
    recorded_frame, render, substep.
  keeps_tac.
Qed.

Lemma reset_keeps_fields : keeps_fields (reset sc).
Proof. unfold reset. keeps_tac. Qed.

End Fields.

(** C7. The reset of a stage puts back the positions, volumes and
    covariances that were loaded into the solver, and the four material
    parameter fields that the update step has just written are the same
    after the reset, and still the same when the next stage is about to
    finalise the material (after the output rollout of an even stage). *)
Theorem C7_reset_restores_state_keeps_fields (ext : collaborators)
  (cfg : inputs) (sc : scene) (spf : Z) (batch : nat) (s : MPM_Simulator_WARP) :
  let at_load :=
    load_initial_data_from_torch (mpm_init_pos sc) (mpm_init_vol sc)
      (mpm_init_cov sc) empty_solver in
  let after_reset := solver_of (reset sc) s in
  let before_next_finalize :=
    solver_of (reset sc ;; output_rollout ext cfg sc spf batch ;;
               emit EvTapeReset)%M s in
  particle_x (state after_reset) = particle_x (state at_load) /\
  particle_vol (state after_reset) = particle_vol (state at_load) /\
  particle_cov (state after_reset) = particle_cov (state at_load) /\
  four_fields after_reset = four_fields s /\
  four_fields before_next_finalize = four_fields s.
Proof.
  cbv zeta.
  split; [reflexivity|]. split; [reflexivity|]. split; [reflexivity|].
  split; [apply reset_keeps_fields|].
  assert (H : keeps_fields
                (reset sc ;; output_rollout ext cfg sc spf batch ;;
                 emit EvTapeReset)%M).
  { apply keeps_fields_bind; [apply reset_keeps_fields|]. intros _.
    apply keeps_fields_bind; [apply output_rollout_keeps_fields|]. intros _.
    apply keeps_fields_pure. reflexivity. }
  apply H.
Qed.

(** ** Order of the solver set-up *)

Lemma split_unique {A : Type} (x : A) (l1 l2 l1' l2' : list A) :
  l1 ++ x :: l2 = l1' ++ x :: l2' ->
  ~ In x l1' -> ~ In x l2' -> l1 = l1' /\ l2 = l2'.
Proof.
  revert l1. induction l1' as [|a l1' IH]; intros [|b l1] H Hn1 Hn2;
    cbn in H; inversion H; subst.
  - now split.
  - exfalso. apply Hn2. apply in_or_app. right. now left.
  - exfalso. apply Hn1. now left.
  - destruct (IH l1 H2) as [-> ->]; [|assumption|now split].
    intros Hin. apply Hn1. now right.
Qed.

Section MainLog.

Context (ext : collaborators) (cfg : inputs).

Lemma stage_no_boundary_conditions (sc : scene) (spf : Z) (batch : nat) :
  emits (fun ev => ev <> EvSetBoundaryConditions) (stage ext cfg sc spf batch).
Proof.
  unfold stage.
  apply emits_bind.
  { eapply emits_weaken; [|apply differentiable_rollout_quiet]. intros ev H. apply H. }
  intros imgs. apply emits_bind.
  { eapply emits_weaken; [|apply update_fields_updating]. intros ev H. apply H. }
  intros _. apply emits_bind.
  { unfold reset. emits_tac. discriminate. }
  intros _. eapply emits_weaken; [|apply output_rollout_rolling]. intros ev H. apply H.
Qed.

(** Once preprocessing has succeeded the log starts with the load, the
    injection of the material parameters and the boundary-condition setup,
    in this order; the loop never sets boundary conditions again. *)
Lemma simulate_log (sc : scene) s :
  exists rest,
    log_of (simulate ext cfg sc) s
    = EvLoad (length (mpm_init_pos sc)) :: EvSetParameters
      :: EvSetBoundaryConditions :: rest /\
    Forall (fun ev => ev <> EvSetBoundaryConditions) rest.
Proof.
  assert (Hloop : emits (fun ev => ev <> EvSetBoundaryConditions)
            (spf <- lift (step_per_frame (times cfg)) ;;
             for_each (seq 0 n_batches) (stage ext cfg sc spf) ;; ret tt)%M).
  { apply emits_bind; [apply emits_silent; reflexivity|]. intros spf.
    apply emits_bind; [|intros _; apply emits_silent; reflexivity].
    apply emits_for_each. intros batch. apply stage_no_boundary_conditions. }
  unfold simulate, log_of.
  rewrite bind_emit, bind_modify, bind_emit, bind_modify, bind_emit, bind_modify.
  cbn [fst snd]. eexists. split; [reflexivity|]. apply Hloop.
Qed.

Lemma main_log_cases :
  (exists e, preprocess ext cfg = Err e /\ main_log ext cfg = []) \/
  (exists sc rest,
      preprocess ext cfg = Ok sc /\
      main_log ext cfg
      = EvLoad (length (mpm_init_pos sc)) :: EvSetParameters
        :: EvSetBoundaryConditions :: rest /\
      Forall (fun ev => ev <> EvSetBoundaryConditions) rest).
Proof.
  unfold main_log, main.
  destruct (preprocess ext cfg) as [sc|e]; [right | left; eauto].
  destruct (simulate_log sc empty_solver) as (rest & Hlog & Hrest).
  exists sc, rest. split; [reflexivity|]. split; [|exact Hrest].
  unfold log_of in Hlog.
  destruct (simulate ext cfg sc empty_solver) as [[l s'] r]. exact Hlog.
Qed.

End MainLog.

(** C4, as the code has it.  Boundary-condition setup happens once, right
    after the load and the injection of the material parameters and before
    any material finalisation: no finalisation precedes it, and every
    finalisation of the run follows it. *)
Theorem C4_boundary_conditions_precede_finalization (ext : collaborators)
  (cfg : inputs) (l1 l2 : list event) :
  main_log ext cfg = l1 ++ EvSetBoundaryConditions :: l2 ->
  (exists n, l1 = [EvLoad n; EvSetParameters]) /\
  existsb is_finalize l1 = false /\
  ~ In EvSetBoundaryConditions l2 /\
  filter is_finalize (main_log ext cfg) = filter is_finalize l2.
Proof.
  intros Hlog.
  destruct (main_log_cases ext cfg) as [(e & _ & Hnil)|(sc & rest & _ & Hmain & Hrest)].
  - rewrite Hnil in Hlog. now destruct l1.
  - assert (Hno : ~ In EvSetBoundaryConditions rest).
    { intros Hin. rewrite Forall_forall in Hrest. now apply (Hrest _ Hin). }
    rewrite Hlog in Hmain.
    destruct (@split_unique _ EvSetBoundaryConditions l1 l2
                [EvLoad (length (mpm_init_pos sc)); EvSetParameters] rest Hmain)
      as [-> ->]; [|exact Hno|].
    { cbn. intros [H|[H|[]]]; discriminate. }
    rewrite Hlog. repeat split; eauto.
Qed.

(** ** Stages that run to their reset *)

Section StageRuns.

Context (ext : collaborators) (cfg : inputs) (sc : scene).
Hypothesis Hscene : preprocess ext cfg = Ok sc.

Lemma differentiable_rollout_ok (spf : Z) (batch : nat) s :
  exists imgs,
    outcome_of (differentiable_rollout ext cfg sc spf batch) s = Ok imgs.
Proof.
  unfold differentiable_rollout, finalize, warm_up.
  rewrite outcome_of_bind. cbn [outcome_of emit snd solver_of fst].
  rewrite outcome_of_bind.
  replace (outcome_of (emit (EvFinalize true);; modify (finalize_mu_lam ext))%M s)
    with (@Ok unit tt) by reflexivity.
  rewrite outcome_of_bind.
  set (s1 := solver_of (emit (EvFinalize true);; modify (finalize_mu_lam ext))%M s).
  destruct (substeps_loop ext cfg
              (range (spf * Z.of_nat (batch mod stage_num))) None false s1)
    as (s2 & bs & Hw).
  assert (Hwo : (for_each (range (spf * Z.of_nat (batch mod stage_num)))
                   (fun _ => substep ext cfg None false) ;; ret tt)%M s1
                = (repeat (EvP2G2P None false)
                     (length (range (spf * Z.of_nat (batch mod stage_num)))),
                   s2, Ok tt)).
  { rewrite (bind_ok _ _ _ Hw). cbn. now rewrite app_nil_r. }
  unfold outcome_of at 1, solver_of at 1. rewrite Hwo. cbn [fst snd].
  destruct (recorded_rollout_run ext cfg spf s2 Hscene) as (l & s3 & imgs & Hr & _).
  exists imgs. unfold outcome_of. now rewrite Hr.
Qed.

Lemma rescale_grad_ok (grad : list R) :
  grad <> [] -> exists r, rescale_grad grad = Ok r.
Proof.
  destruct grad as [|g gs]; [congruence|]. intros _.
  destruct (rescale_grad_bounded g gs) as (r & Hr & _). eauto.
Qed.

Lemma update_fields_ok (batch : nat) (imgs : list (Image ext)) s (loss : R) :
  total_loss (guidance ext imgs) = Ok loss ->
  E_grad (material_grad ext batch loss s) <> [] ->
  mu_N_grad (material_grad ext batch loss s) <> [] ->
  lam_N_grad (material_grad ext batch loss s) <> [] ->
  viscosity_grad (material_grad ext batch loss s) <> [] ->
  outcome_of (update_fields ext batch imgs) s = Ok tt.
Proof.
  intros Hloss HE Hmu Hlam Hvis.
  destruct (rescale_grad_ok HE) as [r1 H1].
  destruct (rescale_grad_ok Hmu) as [r2 H2].
  destruct (rescale_grad_ok Hlam) as [r3 H3].
  destruct (rescale_grad_ok Hvis) as [r4 H4].
  unfold update_fields, update_field, outcome_of, bind, emit, lift, get, modify.
  rewrite Hloss. cbn. rewrite H1. cbn. rewrite H2. cbn. rewrite H3. cbn.
  rewrite H4. reflexivity.
Qed.

(** A stage reaches its reset when the guidance model returns an
    optimisation loss and the four gradients are not empty. *)
Lemma stage_reaches_reset (spf : Z) (batch : nat) s :
  (forall imgs, exists loss, total_loss (guidance ext imgs) = Ok loss) ->
  (forall b loss t,
      E_grad (material_grad ext b loss t) <> [] /\
      mu_N_grad (material_grad ext b loss t) <> [] /\
      lam_N_grad (material_grad ext b loss t) <> [] /\
      viscosity_grad (material_grad ext b loss t) <> []) ->
  In EvResetPos (log_of (stage ext cfg sc spf batch) s).
Proof.
  intros Hguid Hgrad. unfold stage.
  destruct (differentiable_rollout_ok spf batch s) as [imgs Ho1].
  rewrite log_of_bind, Ho1. apply in_or_app. right.
  destruct (Hguid imgs) as [loss Hloss].
  set (s1 := solver_of _ s).
  destruct (Hgrad batch loss s1) as (HE & Hmu & Hlam & Hvis).
  rewrite log_of_bind, (update_fields_ok batch imgs s1 Hloss HE Hmu Hlam Hvis).
  apply in_or_app. right. rewrite log_of_bind. now left.
Qed.

End StageRuns.

(** ** Index alignment with at most one partitioning step *)

Lemma mask_select_length {A B : Type} (mask : list bool) (xs : list A) (ys : list B) :
  length xs = length ys ->
  length (mask_select mask xs) = length (mask_select mask ys).
Proof.
  unfold mask_select. rewrite !length_map. revert xs ys.
  induction mask as [|b mask IH]; intros [|x xs] [|y ys] H; try discriminate;
    try reflexivity.
  cbn. injection H as H. destruct b; cbn; [f_equal|]; now apply IH.
Qed.

Lemma apply_cov_rotations_length (rs : list M33) (cs : list Cov6) :
  length (apply_cov_rotations cs rs) = length cs.
Proof.
  unfold apply_cov_rotations. revert cs.
  induction rs as [|r rs IH]; intros cs; cbn [fold_left]; [reflexivity|].
  rewrite IH. apply length_map.
Qed.

Lemma apply_inverse_rotations_length (rs : list M33) (ps : list V3) :
  length (apply_inverse_rotations ps rs) = length ps.
Proof.
  unfold apply_inverse_rotations. generalize (rev rs). intros l. revert ps.
  induction l as [|r l IH]; intros ps; cbn [fold_left]; [reflexivity|].
  rewrite IH. apply length_map.
Qed.

Lemma apply_inverse_cov_rotations_length (rs : list M33) (cs : list Cov6) :
  length (apply_inverse_cov_rotations cs rs) = length cs.
Proof.
  unfold apply_inverse_cov_rotations. generalize (rev rs). intros l. revert cs.
  induction l as [|r l IH]; intros cs; cbn [fold_left]; [reflexivity|].
  rewrite IH. apply length_map.
Qed.

Lemma normalize_length (rp tp : list V3) (ic ic' : list Cov6) (rs : list M33)
  (s : R) (m : V3) :
  normalize rp ic rs = Ok (tp, ic', s, m) ->
  length tp = length rp /\ length ic' = length ic.
Proof.
  unfold normalize.
  destruct (transform2origin rp) as [[[tp0 s0] m0]|e] eqn:Ht; [|discriminate].
  intros H. inversion H; subst; clear H.
  apply transform2origin_rows in Ht. subst tp0.
  unfold shift2center111.
  rewrite !length_map, apply_cov_rotations_length. now split.
Qed.

Lemma from_simulation_length (pos : list V3) (cov : list Cov6) (s : R) (m : V3)
  (rs : list M33) :
  length (fst (from_simulation pos cov s m rs)) = length pos /\
  length (snd (from_simulation pos cov s m rs)) = length cov.
Proof.
  unfold from_simulation. cbn [fst snd].
  rewrite apply_inverse_rotations_length, apply_inverse_cov_rotations_length.
  unfold undotransform2origin, undoshift2center111. rewrite !length_map.
  now split.
Qed.

Lemma convert_SH_length (ext : collaborators) (shs : list SH)
  (camera : Camera ext) (pos : list V3) (rot : list M33) :
  length (convert_SH ext shs camera pos rot) = length shs.
Proof.
  unfold convert_SH. rewrite length_map, length_combine, length_seq.
  apply Nat.min_id.
Qed.


Section Shapes.

Context (ext : collaborators) (cfg : inputs).

Lemma build_scene_shapes (u : option frozen) (p : list V3) (c : list Cov6)
  (o : list R) (h : list SH) (sp : list V3) (sc : scene) :
  length c = length p -> length o = length p -> length h = length p ->
  (forall f, u = Some f -> frozen_ok f) ->
  build_scene ext cfg u p c o h sp = Ok sc ->
  length (shs_render sc) = gs_num sc /\
  length (opacity_render sc) = gs_num sc /\
  (gs_num sc <= init_len sc)%nat /\
  (forall f, unselected sc = Some f -> frozen_ok f).
Proof.
  intros Hc Ho Hh Hu H. unfold build_scene in H.
  set (rs := generate_rotation_matrices _ _) in H.
  pose proof (apply_rotations_length rs p) as Hr.
  set (rp := apply_rotations p rs) in *. clearbody rp.
  destruct (sim_area (preprocessing cfg)) as [b|].
  - destruct (Nat.eqb (length b) 6); [|cbn [rbind] in H; discriminate].
    cbn [rbind] in H.
    set (m := map (in_sim_area b) rp) in H.
    assert (Lc : length (mask_select m c) = length (mask_select m rp))
      by (apply mask_select_length; congruence).
    assert (Lo : length (mask_select m o) = length (mask_select m rp))
      by (apply mask_select_length; congruence).
    assert (Lh : length (mask_select m h) = length (mask_select m rp))
      by (apply mask_select_length; congruence).
    assert (Lf : frozen_ok
                   {| unselected_pos := mask_select (logical_not m) p;
                      unselected_cov := mask_select (logical_not m) c;
                      unselected_opacity := mask_select (logical_not m) o;
                      unselected_shs := mask_select (logical_not m) h |})
      by (repeat split; cbn; now apply mask_select_length).
    set (p2 := mask_select m rp) in *. set (c2 := mask_select m c) in *.
    set (o2 := mask_select m o) in *. set (h2 := mask_select m h) in *.
    clearbody p2 c2 o2 h2.
    destruct (normalize p2 c2 rs) as [[[[tp ic] so] om]|e] eqn:Hn;
      [|cbn [rbind] in H; discriminate].
    apply normalize_length in Hn. destruct Hn as [Htp Hic]. cbn [rbind] in H.
    unfold fill_particles, init_filled_particles in H.
    destruct (particle_filling (preprocessing cfg)) as [fp|];
      [destruct (visualize fp)|]; inversion H; subst; clear H; cbn;
      rewrite ?length_app, ?length_map, ?length_skipn, ?length_app;
      (split; [|split; [|split]]); try lia;
      intros f Hf; inversion Hf; subst; exact Lf.
  - cbn [rbind] in H.
    destruct (normalize rp c rs) as [[[[tp ic] so] om]|e] eqn:Hn;
      [|cbn [rbind] in H; discriminate].
    apply normalize_length in Hn. destruct Hn as [Htp Hic]. cbn [rbind] in H.
    unfold fill_particles, init_filled_particles in H.
    destruct (particle_filling (preprocessing cfg)) as [fp|];
      [destruct (visualize fp)|]; inversion H; subst; clear H; cbn;
      rewrite ?length_app, ?length_map, ?length_skipn, ?length_app;
      (split; [|split; [|split]]); try lia; exact Hu.
Qed.

Hypothesis Hwf : well_formed cfg.

(** The arrays that preprocessing leaves for rendering have one row per
    visible particle, and the frozen arrays one row per frozen particle. *)
Lemma preprocess_shapes (sc : scene) :
  preprocess ext cfg = Ok sc ->
  length (shs_render sc) = gs_num sc /\
  length (opacity_render sc) = gs_num sc /\
  (gs_num sc <= init_len sc)%nat /\
  (forall f, unselected sc = Some f -> frozen_ok f).
Proof.
  destruct Hwf as (Hc & Ho & Hs). unfold preprocess.
  set (mask := map _ (gs_opacity cfg)).
  destruct (moving_pts cfg) as [pts|]; apply build_scene_shapes;
    try (repeat apply mask_select_length; assumption).
  all: intros f Hf; inversion Hf; subst; clear Hf;
    repeat split; cbn; repeat apply mask_select_length; assumption.
Qed.



(** With at most one of the two partitioning steps configured, the four
    arrays handed to the rasteriser have one row for every visible and every
    frozen particle. *)
Lemma couple_aligned_unless_both (sc : scene) (camera : Camera ext)
  (x : list V3) (cov : list Cov6) (rot : list M33) :
  preprocess ext cfg = Ok sc ->
  sim_area (preprocessing cfg) = None \/ moving_pts cfg = None ->
  (gs_num sc <= length x)%nat -> (gs_num sc <= length cov)%nat ->
  exists args,
    couple ext cfg sc camera x cov rot = Ok args /\
    aligned (gs_num sc + frozen_count sc) args.
Proof.
  intros Hscene Hone Hx Hcov.
  destruct (preprocess_shapes Hscene) as (Hshs & Hopa & Hlen & Hfro).
  pose proof (preprocess_unselected ext cfg Hscene) as Hu.
  unfold couple, frozen_count, aligned.
  pose proof (from_simulation_length
                (firstn (init_len sc) (firstn (gs_num sc) x))
                (firstn (gs_num sc) cov) (scale_origin sc)
                (original_mean_pos sc) (rotation_matrices sc)) as [Lp Lc].
  repeat rewrite length_firstn in Lp. rewrite length_firstn in Lc.
  destruct (from_simulation _ _ _ _ _) as [pos cov3D]. cbn [fst snd] in Lp, Lc.
  destruct (sim_area (preprocessing cfg)) as [b|] eqn:Hsa;
    destruct (moving_pts cfg) as [pts|] eqn:Hmp.
  - destruct Hone; discriminate.
  - destruct Hu as [f Hf]; [left; discriminate|]. rewrite Hf.
    destruct (Hfro f Hf) as (F1 & F2 & F3).
    cbn. eexists. split; [reflexivity|]. cbn.
    rewrite convert_SH_length, !length_app. lia.
  - destruct Hu as [f Hf]; [right; discriminate|]. rewrite Hf.
    destruct (Hfro f Hf) as (F1 & F2 & F3).
    cbn. eexists. split; [reflexivity|]. cbn.
    rewrite convert_SH_length, !length_app. lia.
  - assert (Hnone : unselected sc = None).
    { revert Hscene. unfold preprocess, build_scene. rewrite Hsa, Hmp.
      cbn [rbind].
      match goal with
      | |- context [normalize ?p ?c ?r] =>
          destruct (normalize p c r) as [[[[tp ic] so] om]|e];
          [|cbn [rbind]; discriminate]
      end.
      cbn [rbind].
      destruct (particle_filling (preprocessing cfg)) as [fp|];
        [destruct (visualize fp)|]; intros H; inversion H; reflexivity. }
    rewrite Hnone.
    cbn. eexists. split; [reflexivity|]. cbn.
    rewrite convert_SH_length. lia.
Qed.


(** With exactly one partitioning step configured, the frozen arrays are
    attached once, as they are, after the rows of the simulated particles. *)
Lemma couple_reattaches_once (sc : scene) (camera : Camera ext)
  (x : list V3) (cov : list Cov6) (rot : list M33) (f : frozen) :
  unselected sc = Some f ->
  (sim_area (preprocessing cfg) = None /\ moving_pts cfg <> None) \/
  (sim_area (preprocessing cfg) <> None /\ moving_pts cfg = None) ->
  exists args pos cov3D,
    couple ext cfg sc camera x cov rot = Ok args /\
    means3D args = pos ++ unselected_pos f /\
    cov3D_precomp args = cov3D ++ unselected_cov f /\
    opacities args = opacity_render sc ++ unselected_opacity f.
Proof.
  intros Hf Hone. unfold couple.
  destruct (from_simulation _ _ _ _ _) as [pos cov3D].
  destruct (sim_area (preprocessing cfg)) as [b|];
    destruct (moving_pts cfg) as [pts|];
    try (destruct Hone as [[H1 H2]|[H1 H2]]; congruence);
    rewrite Hf; cbn; do 3 eexists; repeat split.
Qed.

End Shapes.

(** ** The concrete scenes *)

Import Examples.

Ltac Rbool :=
  repeat first
    [ rewrite Rgtb_true by lra | rewrite Rgtb_false by lra
    | rewrite Rltb_true by lra | rewrite Rltb_false by lra ].

Ltac eval_masks :=
  repeat (progress
    (cbn -[IZR Rdiv Rgtb Rltb Rmax Rmin normalize transform2origin];
     unfold sq_dist, in_sim_area; cbn [vx vy vz nth]; Rbool)).

Ltac eval_preprocess :=
  unfold preprocess, build_scene, two_particles, threshold_too_high, both_partitions,
    far_pos, outside_pos;
  eval_masks; unfold normalize; cbn -[IZR Rdiv Rgtb Rltb Rmax Rmin].

Lemma two_particles_scene :
  exists sc, preprocess static_world two_particles = Ok sc /\ gs_num sc = 2%nat.
Proof. eexists. split; [eval_preprocess; reflexivity | reflexivity]. Qed.

Lemma static_world_guidance (imgs : list (Image static_world)) :
  exists loss, total_loss (guidance static_world imgs) = Ok loss.
Proof. eexists. reflexivity. Qed.

Lemma static_world_grads (b : nat) (loss : R) (t : MPM_Simulator_WARP) :
  E_grad (material_grad static_world b loss t) <> [] /\
  mu_N_grad (material_grad static_world b loss t) <> [] /\
  lam_N_grad (material_grad static_world b loss t) <> [] /\
  viscosity_grad (material_grad static_world b loss t) <> [].
Proof. repeat split; discriminate. Qed.

Lemma unit_steps_per_frame : step_per_frame unit_steps = Ok 1%Z.
Proof.
  unfold step_per_frame, unit_steps; cbn [substep_dt frame_dt].
  destruct (Req_dec_T 1 0) as [H|_]; [lra|]. f_equal.
  unfold py_int. destruct (Rle_dec 0 (1 / 1)) as [_|H]; [|exfalso; lra].
  symmetry. apply Int_part_spec. cbn. lra.
Qed.

(** C5 at a concrete scene: both opacities are below the threshold 0.95. *)
Lemma C5_witness :
  Forall (fun o => o <= opacity_threshold (preprocessing threshold_too_high))
    (gs_opacity threshold_too_high) /\
  exists e, main static_world threshold_too_high = ([], None, Err e).
Proof.
  assert (H : Forall (fun o => o <= opacity_threshold (preprocessing threshold_too_high))
                (gs_opacity threshold_too_high)).
  { cbn. repeat constructor; lra. }
  split; [exact H|].
  exact (C5_empty_retained_set_fails_fast static_world threshold_too_high H).
Defined.

(** C8 at the two-particle scene, one substep per frame. *)
Lemma C8_witness :
  exists sc,
    preprocess static_world two_particles = Ok sc /\
    exists log s' imgs,
      recorded_rollout static_world two_particles sc 1
        (loaded static_world two_particles sc) = (log, s', Ok imgs) /\
      forall frame, (frame < frame_per_stage)%nat ->
        substeps_of_frame frame log
        = repeat false (Z.to_nat (1 * (1 + Z.of_nat stage_num) - 1)) ++ [true].
Proof.
  destruct two_particles_scene as (sc & Hsc & _).
  exists sc. split; [exact Hsc|].
  exact (C8_last_substep_in_tape static_world two_particles 1
           (loaded static_world two_particles sc) Hsc).
Defined.


(** C10: with one substep per frame, stage 7 warms up for seven substeps and
    stage 8 for none. *)
Lemma C10_counterexample :
  ~ warm_up_monotone static_world two_particles 1 empty_solver.
Proof.
  intros H. specialize (H 7%nat 8%nat ltac:(lia)).
  rewrite !warm_up_steps_eq in H. vm_compute in H. lia.
Qed.

Lemma C10_witness :
  (9 <= 11)%nat /\ (9 / stage_num = 11 / stage_num)%nat /\
  (warm_up_steps static_world two_particles 1 9 empty_solver
   <= warm_up_steps static_world two_particles 1 11 empty_solver)%nat /\
  warm_up_steps static_world two_particles 1 11 empty_solver
  = Z.to_nat (1 * Z.of_nat (11 mod stage_num)) /\
  warm_up_steps static_world two_particles 1 (stage_num * (11 / stage_num))
    empty_solver = 0%nat.
Proof.
  split; [lia|]. split; [reflexivity|].
  apply (C10_warm_up_grows_within_block static_world two_particles 1
           empty_solver (i := 9) (j := 11)); [lia | reflexivity].
Defined.

(** C4: in the run on the two-particle scene the boundary conditions are set
    while no finalisation has happened yet. *)
Lemma two_particles_log :
  exists rest,
    main_log static_world two_particles
    = [EvLoad 2; EvSetParameters] ++ EvSetBoundaryConditions :: rest.
Proof.
  destruct (main_log_cases static_world two_particles)
    as [(e & He & _)|(sc & rest & Hsc & Hlog & _)].
  - destruct two_particles_scene as (sc & Hsc & _). congruence.
  - exists rest. rewrite Hlog.
    destruct two_particles_scene as (sc' & Hsc' & Hn).
    assert (sc' = sc) by congruence. subst sc'.
    assert (Hlen : length (mpm_init_pos sc) = 2%nat).
    { revert Hsc. eval_preprocess. intros Hsc. inversion Hsc. reflexivity. }
    now rewrite Hlen.
Qed.

Lemma C4_counterexample :
  ~ bc_follows_finalization (main_log static_world two_particles).
Proof.
  intros H. destruct two_particles_log as [rest Hlog].
  specialize (H _ _ Hlog). discriminate.
Qed.

Lemma C4_witness :
  exists l1 l2,
    main_log static_world two_particles = l1 ++ EvSetBoundaryConditions :: l2 /\
    (exists n, l1 = [EvLoad n; EvSetParameters]) /\
    existsb is_finalize l1 = false /\
    ~ In EvSetBoundaryConditions l2 /\
    filter is_finalize (main_log static_world two_particles)
    = filter is_finalize l2.
Proof.
  destruct two_particles_log as [rest Hlog].
  exists [EvLoad 2; EvSetParameters], rest. split; [exact Hlog|].
  exact (C4_boundary_conditions_precede_finalization static_world two_particles
           [EvLoad 2; EvSetParameters] rest Hlog).
Defined.

(** ** Both partitioning steps configured *)

(** C2 at a scene with both a movable-region point cloud and a sim-area
    box: two particles are simulated, one is frozen by each step, and the
    rasteriser is handed four positions and covariances but three colours
    and opacities. *)
Theorem C2_length_mismatch_when_both_configured :
  exists sc args,
    preprocess static_world both_partitions = Ok sc /\
    couple static_world both_partitions sc (get_camera_view static_world 0)
      (export_particle_x_to_torch (loaded static_world both_partitions sc))
      (export_particle_cov_to_torch (loaded static_world both_partitions sc))
      (export_particle_R_to_torch (loaded static_world both_partitions sc))
    = Ok args /\
    gs_num sc = 2%nat /\
    length (means3D args) = 4%nat /\
    length (cov3D_precomp args) = 4%nat /\
    length (colors_precomp args) = 3%nat /\
    length (opacities args) = 3%nat.
Proof.
  do 2 eexists. split; [eval_preprocess; reflexivity|].
  split; [cbn -[IZR Rdiv Rmax Rmin]; reflexivity|].
  repeat split.
Qed.

(** C6 at the same scene: the particle frozen by the movable-region step
    (opacity 0.9) is in no array handed to the rasteriser, and the particle
    frozen by the sim-area step is attached twice to the positions and
    covariances and once to the opacities. *)
Theorem C6_frozen_partitions_do_not_compose :
  exists sc args f,
    preprocess static_world both_partitions = Ok sc /\
    unselected sc = Some f /\
    unselected_pos f = [outside_pos] /\
    unselected_opacity f = [8 / 10] /\
    couple static_world both_partitions sc (get_camera_view static_world 0)
      (export_particle_x_to_torch (loaded static_world both_partitions sc))
      (export_particle_cov_to_torch (loaded static_world both_partitions sc))
      (export_particle_R_to_torch (loaded static_world both_partitions sc))
    = Ok args /\
    skipn 2 (means3D args) = [outside_pos; outside_pos] /\
    skipn 2 (cov3D_precomp args) = [mkCov6 2 0 0 2 0 2; mkCov6 2 0 0 2 0 2] /\
    opacities args = [7 / 10; 6 / 10; 8 / 10].
Proof.
  do 3 eexists. split; [eval_preprocess; reflexivity|].
  split; [reflexivity|]. split; [reflexivity|]. split; [reflexivity|].
  split; [cbn -[IZR Rdiv Rmax Rmin]; reflexivity|].
  repeat split.
Qed.

(** * Further properties of the script *)

(** ** Particle Set Builder *)

Import MoreScenes.

Lemma mask_select_incl {A : Type} (mask : list bool) (xs : list A) (x : A) :
  In x (mask_select mask xs) -> In x xs.
Proof.
  unfold mask_select. intros H. apply in_map_iff in H.
  destruct H as [[b y] [Hy Hin]]. cbn in Hy. subst y.
  apply filter_In in Hin. destruct Hin as [Hin _].
  eapply in_combine_r; eauto.
Qed.

Lemma mask_select_own_mask {A : Type} (f : A -> bool) (xs : list A) (x : A) :
  In x (mask_select (map f xs) xs) -> f x = true.
Proof.
  unfold mask_select. induction xs as [|y xs IH]; cbn; [tauto|].
  destruct (f y) eqn:Hy; cbn; [intros [<-|H]; auto | exact IH].
Qed.

Lemma mask_partition {A : Type} (mask : list bool) (xs : list A) :
  length mask = length xs ->
  Permutation (mask_select mask xs ++ mask_select (logical_not mask) xs) xs.
Proof.
  unfold mask_select, logical_not. revert xs.
  induction mask as [|b mask IH]; intros [|x xs] H; try discriminate;
    [constructor|].
  injection H as H. specialize (IH xs H). destruct b; cbn.
  - now constructor.
  - apply Permutation_sym. apply Permutation_cons_app. now apply Permutation_sym.
Qed.

Section BuilderFacts.

Context (ext : collaborators) (cfg : inputs).

(** What [build_scene] leaves of the appearance arrays when the filler
    particles are not rendered. *)
Lemma build_scene_appearance (u : option frozen) (p : list V3) (c : list Cov6)
  (o : list R) (h : list SH) (sp : list V3) (sc : scene) :
  visualized cfg = false ->
  build_scene ext cfg u p c o h sp = Ok sc ->
  match sim_area (preprocessing cfg) with
  | Some b =>
      let m := map (in_sim_area b)
                 (apply_rotations p
                    (generate_rotation_matrices
                       (rotation_degree (preprocessing cfg))
                       (rotation_axis (preprocessing cfg)))) in
      opacity_render sc = mask_select m o /\
      shs_render sc = mask_select m h /\
      frozen_opacity sc = mask_select (logical_not m) o /\
      frozen_shs sc = mask_select (logical_not m) h
  | None =>
      opacity_render sc = o /\ shs_render sc = h /\
      unselected sc = u
  end.
Proof.
  unfold visualized, build_scene, frozen_opacity, frozen_shs. intros Hvis H.
  destruct (sim_area (preprocessing cfg)) as [b|].
  - destruct (Nat.eqb (length b) 6); [|cbn [rbind] in H; discriminate].
    cbn [rbind] in H.
    match type of H with
    | context [normalize ?x ?y ?r] =>
        destruct (normalize x y r) as [[[[tp ic] so] om]|e];
        [|cbn [rbind] in H; discriminate]
    end.
    cbn [rbind] in H.
    destruct (particle_filling (preprocessing cfg)) as [fp|];
      [rewrite Hvis in H|]; inversion H; subst; cbn; auto.
  - cbn [rbind] in H.
    match type of H with
    | context [normalize ?x ?y ?r] =>
        destruct (normalize x y r) as [[[[tp ic] so] om]|e];
        [|cbn [rbind] in H; discriminate]
    end.
    cbn [rbind] in H.
    destruct (particle_filling (preprocessing cfg)) as [fp|];
      [rewrite Hvis in H|]; inversion H; subst; cbn; auto.
Qed.

End BuilderFacts.

(** X1. With at most one of the two partitioning steps configured and one
    row per particle in the reconstructed scene, the positions, covariances,
    colours and opacities handed to the rasteriser all have one row for each
    visible particle followed by one for each frozen particle. *)
Theorem X1_arrays_aligned_with_one_partition (ext : collaborators)
  (cfg : inputs) (sc : scene) (camera : Camera ext)
  (x : list V3) (cov : list Cov6) (rot : list M33) :
  well_formed cfg ->
  preprocess ext cfg = Ok sc ->
  sim_area (preprocessing cfg) = None \/ moving_pts cfg = None ->
  (gs_num sc <= length x)%nat -> (gs_num sc <= length cov)%nat ->
  exists args,
    couple ext cfg sc camera x cov rot = Ok args /\
    aligned (gs_num sc + frozen_count sc) args.
Proof. intros. now apply couple_aligned_unless_both. Qed.

(** X2. With at most one partitioning step configured and the filler
    particles not rendered, no particle that passed the opacity threshold is
    lost or duplicated: the rendered opacities followed by the frozen ones
    are a rearrangement of the opacities above the threshold, and likewise
    for the appearance rows. *)
Theorem X2_partition_keeps_every_particle (ext : collaborators) (cfg : inputs)
  (sc : scene) :
  well_formed cfg ->
  preprocess ext cfg = Ok sc ->
  visualized cfg = false ->
  sim_area (preprocessing cfg) = None \/ moving_pts cfg = None ->
  Permutation (opacity_render sc ++ frozen_opacity sc)
    (mask_select (opacity_mask cfg) (gs_opacity cfg)) /\
  Permutation (shs_render sc ++ frozen_shs sc)
    (mask_select (opacity_mask cfg) (gs_shs cfg)).
Proof.
  intros (Hc & Ho & Hs) Hscene Hvis Hone. unfold preprocess in Hscene.
  fold (opacity_mask cfg) in Hscene.
  set (mask := opacity_mask cfg) in *.
  assert (Lo : length (mask_select mask (gs_opacity cfg))
               = length (mask_select mask (gs_pos cfg)))
    by (apply mask_select_length; congruence).
  assert (Lh : length (mask_select mask (gs_shs cfg))
               = length (mask_select mask (gs_pos cfg)))
    by (apply mask_select_length; congruence).
  destruct (moving_pts cfg) as [pts|] eqn:Hmp.
  - destruct Hone as [Hsa|]; [|discriminate].
    apply (build_scene_appearance _ _ _ _ _ _ _ _ Hvis) in Hscene.
    rewrite Hsa in Hscene. destruct Hscene as (-> & -> & Hu).
    unfold frozen_opacity, frozen_shs. rewrite Hu. cbn.
    split; (eapply Permutation_trans; [apply Permutation_app_comm|]);
      apply mask_partition; unfold find_far_points; rewrite length_map; congruence.
  - apply (build_scene_appearance _ _ _ _ _ _ _ _ Hvis) in Hscene.
    destruct (sim_area (preprocessing cfg)) as [b|].
    + cbv zeta in Hscene. destruct Hscene as (-> & -> & -> & ->).
      split; apply mask_partition;
        rewrite length_map, apply_rotations_length; congruence.
    + destruct Hscene as (-> & -> & Hu).
      unfold frozen_opacity, frozen_shs. rewrite Hu, !app_nil_r. split; reflexivity.
Qed.

(** X3. When the filler particles are not rendered, every opacity that can
    reach the rasteriser, rendered or frozen, is strictly above the opacity
    threshold, whatever partitioning is configured. *)
Theorem X3_no_particle_at_or_below_threshold (ext : collaborators)
  (cfg : inputs) (sc : scene) :
  preprocess ext cfg = Ok sc ->
  visualized cfg = false ->
  Forall (fun o => opacity_threshold (preprocessing cfg) < o)
    (opacity_render sc ++ frozen_opacity sc).
Proof.
  intros Hscene Hvis. unfold preprocess in Hscene.
  fold (opacity_mask cfg) in Hscene. set (mask := opacity_mask cfg) in *.
  assert (Hthr : forall o, In o (mask_select mask (gs_opacity cfg)) ->
                           opacity_threshold (preprocessing cfg) < o).
  { intros o Ho. apply mask_select_own_mask in Ho.
    unfold Rgtb in Ho. now destruct (Rlt_dec _ o). }
  apply Forall_forall. intros o Ho. apply Hthr.
  apply in_app_or in Ho.
  destruct (moving_pts cfg) as [pts|];
    apply (build_scene_appearance _ _ _ _ _ _ _ _ Hvis) in Hscene;
    destruct (sim_area (preprocessing cfg)) as [b|]; cbv zeta in Hscene.
  - destruct Hscene as (E1 & _ & E3 & _). rewrite E1, E3 in Ho.
    destruct Ho as [Ho|Ho]; do 2 apply mask_select_incl in Ho; exact Ho.
  - destruct Hscene as (E1 & _ & Hu). unfold frozen_opacity in Ho.
    rewrite E1, Hu in Ho. cbn in Ho.
    destruct Ho as [Ho|Ho]; apply mask_select_incl in Ho; exact Ho.
  - destruct Hscene as (E1 & _ & E3 & _). rewrite E1, E3 in Ho.
    destruct Ho as [Ho|Ho]; apply mask_select_incl in Ho; exact Ho.
  - destruct Hscene as (E1 & _ & Hu). unfold frozen_opacity in Ho.
    rewrite E1, Hu in Ho. cbn in Ho. destruct Ho as [Ho|[]]. exact Ho.
Qed.

(** X4. A sim-area that is not given by exactly six numbers stops the run
    with an assertion error before the solver is created: nothing is
    logged. *)
Theorem X4_malformed_sim_area_is_fatal (ext : collaborators) (cfg : inputs)
  (boundary : list R) :
  sim_area (preprocessing cfg) = Some boundary ->
  length boundary <> 6%nat ->
  main ext cfg = ([], None, Err AssertionError).
Proof.
  intros Hsa Hlen. unfold main, preprocess, build_scene. rewrite Hsa.
  apply Nat.eqb_neq in Hlen. rewrite Hlen.
  destruct (moving_pts cfg); reflexivity.
Qed.

(** X5. A zero substep stops the run with a division error right after the
    solver has been loaded, parametrised and given its boundary conditions:
    no stage starts. *)
Theorem X5_zero_substep_is_fatal (ext : collaborators) (cfg : inputs)
  (sc : scene) :
  preprocess ext cfg = Ok sc ->
  substep_dt (times cfg) = 0 ->
  exists s,
    main ext cfg
    = ([EvLoad (length (mpm_init_pos sc)); EvSetParameters;
        EvSetBoundaryConditions], Some s, Err ZeroDivisionError).
Proof.
  intros Hscene Hdt. unfold main. rewrite Hscene.
  unfold simulate.
  rewrite bind_emit, bind_modify, bind_emit, bind_modify, bind_emit, bind_modify.
  unfold step_per_frame. rewrite Hdt.
  destruct (Req_dec_T 0 0) as [_|H]; [|exfalso; now apply H].
  eexists. reflexivity.
Qed.

Ltac eval_scene :=
  unfold preprocess, build_scene, box_only, malformed_box, zero_substep,
    no_output_path, Examples.two_particles;
  cbn [gs_pos gs_cov3D_precomp gs_screen_points gs_opacity gs_shs preprocessing
       materials bc_params times moving_pts output_path];
  eval_masks; unfold normalize; cbn -[IZR Rdiv Rgtb Rltb Rmax Rmin].

Lemma box_only_scene :
  exists sc,
    preprocess Examples.static_world box_only = Ok sc /\
    gs_num sc = 2%nat /\ frozen_count sc = 1%nat /\
    length (mpm_init_pos sc) = 2%nat /\ length (mpm_init_cov sc) = 2%nat /\
    opacity_render sc = [8 / 10; 7 / 10] /\ frozen_opacity sc = [9 / 10].
Proof.
  eexists. split; [eval_scene; reflexivity|]. repeat split.
Qed.

Lemma box_only_well_formed : well_formed box_only.
Proof. repeat split. Qed.

Lemma X1_witness :
  exists sc args,
    preprocess Examples.static_world box_only = Ok sc /\
    couple Examples.static_world box_only sc
      (get_camera_view Examples.static_world 0)
      (mpm_init_pos sc) (mpm_init_cov sc) [] = Ok args /\
    aligned 3 args.
Proof.
  destruct box_only_scene as (sc & Hsc & Hn & Hf & Hx & Hc & _).
  destruct (@X1_arrays_aligned_with_one_partition Examples.static_world box_only
              sc (get_camera_view Examples.static_world 0)
              (mpm_init_pos sc) (mpm_init_cov sc) [] box_only_well_formed Hsc
              (or_intror eq_refl))
    as (args & Hargs & Hal).
  - rewrite Hn, Hx. apply le_n.
  - rewrite Hn, Hc. apply le_n.
  - exists sc, args. rewrite Hn, Hf in Hal. auto.
Defined.

Lemma X2_witness :
  exists sc,
    preprocess Examples.static_world box_only = Ok sc /\
    Permutation (opacity_render sc ++ frozen_opacity sc)
      (mask_select (opacity_mask box_only) (gs_opacity box_only)) /\
    Permutation (shs_render sc ++ frozen_shs sc)
      (mask_select (opacity_mask box_only) (gs_shs box_only)).
Proof.
  destruct box_only_scene as (sc & Hsc & _).
  exists sc. split; [exact Hsc|].
  exact (@X2_partition_keeps_every_particle Examples.static_world box_only sc
           box_only_well_formed Hsc eq_refl (or_intror eq_refl)).
Defined.

Lemma X3_witness :
  exists sc,
    preprocess Examples.static_world box_only = Ok sc /\
    Forall (fun o => opacity_threshold (preprocessing box_only) < o)
      (opacity_render sc ++ frozen_opacity sc).
Proof.
  destruct box_only_scene as (sc & Hsc & _).
  exists sc. split; [exact Hsc|].
  exact (@X3_no_particle_at_or_below_threshold Examples.static_world box_only sc
           Hsc eq_refl).
Defined.

Lemma X4_witness :
  main Examples.static_world malformed_box = ([], None, Err AssertionError).
Proof.
  apply (@X4_malformed_sim_area_is_fatal Examples.static_world malformed_box
           [0; 1; 0; 1]); [reflexivity | discriminate].
Defined.

Lemma zero_substep_scene :
  exists sc, preprocess Examples.static_world zero_substep = Ok sc.
Proof. eexists. eval_scene. reflexivity. Qed.

Lemma X5_witness :
  exists sc s,
    preprocess Examples.static_world zero_substep = Ok sc /\
    main Examples.static_world zero_substep
    = ([EvLoad (length (mpm_init_pos sc)); EvSetParameters;
        EvSetBoundaryConditions], Some s, Err ZeroDivisionError).
Proof.
  destruct zero_substep_scene as (sc & Hsc).
  destruct (@X5_zero_substep_is_fatal Examples.static_world zero_substep sc Hsc
              eq_refl) as (s & Hs).
  exists sc, s. auto.
Defined.

(** ** Calibration loop *)

Section LoopFacts.

Context (ext : collaborators) (cfg : inputs) (sc : scene).

Lemma substeps_loop_log {X : Type} (xs : list X) (frame : option nat)
  (in_tape : bool) s :
  log_of (for_each xs (fun _ => substep ext cfg frame in_tape)) s
  = repeat (EvP2G2P frame in_tape) (length xs) /\
  exists bs,
    outcome_of (for_each xs (fun _ => substep ext cfg frame in_tape)) s = Ok bs.
Proof.
  destruct (substeps_loop ext cfg xs frame in_tape s) as (s' & bs & H).
  unfold log_of, outcome_of. rewrite H. split; [reflexivity | now exists bs].
Qed.

Lemma render_no_substep (frame : nat) (in_tape : bool) :
  emits no_substep (render ext cfg sc frame in_tape).
Proof. unfold render. emits_tac; intros fr b; discriminate. Qed.

Lemma substeps_of_frame_none (f : nat) (l : list event) :
  Forall no_substep l -> substeps_of_frame f l = [].
Proof.
  induction 1 as [|ev l Hev _ IH]; [reflexivity|].
  unfold substeps_of_frame in *. cbn [flat_map]. rewrite IH.
  destruct ev; try reflexivity. exfalso. now apply (Hev frame in_tape).
Qed.

Lemma recorded_frame_substeps (spf : Z) (frame : nat) s :
  substeps_of_frame frame (log_of (recorded_frame ext cfg sc spf frame) s)
  = repeat false (Z.to_nat (spf * (1 + Z.of_nat stage_num) - 1)) ++ [true].
Proof.
  unfold recorded_frame. rewrite log_of_bind.
  destruct (substeps_loop_log (range (spf * (1 + Z.of_nat stage_num) - 1))
              (Some frame) false s) as [Hlog [bs Hout]].
  rewrite Hlog, Hout, length_range. rewrite log_of_bind.
  cbn [log_of outcome_of substep bind emit modify fst snd].
  rewrite !substeps_of_frame_app, substeps_of_frame_repeat, Nat.eqb_refl.
  f_equal.
  rewrite (@substeps_of_frame_none frame
             (log_of (render ext cfg sc frame true) _));
    [|apply render_no_substep].
  cbn. now rewrite Nat.eqb_refl.
Qed.

Lemma output_frame_substeps (spf : Z) (frame : nat) s :
  substeps_of_frame frame (log_of (output_frame ext cfg sc spf frame) s)
  = repeat false (Z.to_nat spf).
Proof.
  unfold output_frame. rewrite log_of_bind.
  destruct (substeps_loop_log (range spf) (Some frame) false s) as [Hlog [bs Hout]].
  rewrite Hlog, Hout, length_range.
  rewrite substeps_of_frame_app, substeps_of_frame_repeat, Nat.eqb_refl.
  match goal with
  | |- _ ++ substeps_of_frame _ ?l = _ =>
      rewrite (@substeps_of_frame_none frame l); [apply app_nil_r|]
  end.
  apply emits_bind; [apply render_no_substep|]. intros _.
  destruct (output_path cfg); emits_tac; intros fr b; discriminate.
Qed.

Lemma tape_events_app (l1 l2 : list event) :
  tape_events (l1 ++ l2) = tape_events l1 ++ tape_events l2.
Proof. apply filter_app. Qed.

Lemma tape_events_outside (l : list event) :
  Forall (fun ev => in_tape_event ev = false) l -> tape_events l = [].
Proof.
  induction 1 as [|ev l Hev _ IH]; [reflexivity|].
  unfold tape_events in *. cbn. now rewrite Hev.
Qed.

Lemma output_rollout_outside_tape (spf : Z) (batch : nat) :
  emits (fun ev => in_tape_event ev = false) (output_rollout ext cfg sc spf batch).
Proof.
  unfold output_rollout, output_frame, finalize, render, substep.
  destruct (Nat.eqb (batch mod 2) 0); emits_tac; reflexivity.
Qed.

Hypothesis Hscene : preprocess ext cfg = Ok sc.

(** The whole log of the differentiable rollout of a stage. *)
Lemma differentiable_rollout_run (spf : Z) (batch : nat) s :
  exists ls s' imgs,
    differentiable_rollout ext cfg sc spf batch s
    = (EvTapeReset :: EvFinalize true
         :: repeat (EvP2G2P None false)
              (Z.to_nat (spf * Z.of_nat (batch mod stage_num)))
         ++ concat ls, s', Ok imgs) /\
    Forall2 (fun frame l =>
               exists args,
                 l = repeat (EvP2G2P (Some frame) false)
                       (Z.to_nat (spf * (1 + Z.of_nat stage_num) - 1))
                     ++ [EvP2G2P (Some frame) true; EvExport true;
                         EvRasterize frame args])
            (seq 0 frame_per_stage) ls.
Proof.
  unfold differentiable_rollout, finalize, warm_up, recorded_rollout.
  rewrite bind_emit.
  set (s1 := finalize_mu_lam ext s).
  destruct (substeps_loop ext cfg
              (range (spf * Z.of_nat (batch mod stage_num))) None false s1)
    as (s2 & bs & Hw).
  rewrite length_range in Hw.
  destruct (for_each_spec
              (fun frame l =>
                 exists args,
                   l = repeat (EvP2G2P (Some frame) false)
                         (Z.to_nat (spf * (1 + Z.of_nat stage_num) - 1))
                       ++ [EvP2G2P (Some frame) true; EvExport true;
                           EvRasterize frame args])
              (seq 0 frame_per_stage) (recorded_frame ext cfg sc spf)) with (s := s2)
    as (ls & s3 & imgs & Hrun & Hall).
  { intros frame t _.
    destruct (@recorded_frame_run ext cfg sc Hscene spf frame t)
      as (args & t' & img & H).
    do 3 eexists. split; [exact H|]. now exists args. }
  exists ls, s3, imgs. split; [|exact Hall].
  rewrite (bind_ok _ _ _ (eq_refl : bind (emit (EvFinalize true))
                                      (fun _ => modify (finalize_mu_lam ext)) s
                                    = ([EvFinalize true], s1, Ok tt))).
  assert (Hwo : (for_each (range (spf * Z.of_nat (batch mod stage_num)))
                   (fun _ => substep ext cfg None false) ;; ret tt)%M s1
                = (repeat (EvP2G2P None false)
                     (Z.to_nat (spf * Z.of_nat (batch mod stage_num))),
                   s2, Ok tt)).
  { rewrite (bind_ok _ _ _ Hw). cbn. now rewrite app_nil_r. }
  rewrite (bind_ok _ _ _ Hwo). rewrite Hrun. reflexivity.
Qed.

Lemma tape_events_recorded_frames (spf : Z) (xs : list nat)
  (ls : list (list event)) :
  Forall2 (fun frame l =>
             exists args,
               l = repeat (EvP2G2P (Some frame) false)
                     (Z.to_nat (spf * (1 + Z.of_nat stage_num) - 1))
                   ++ [EvP2G2P (Some frame) true; EvExport true;
                       EvRasterize frame args]) xs ls ->
  tape_events (concat ls)
  = flat_map (fun frame => [EvP2G2P (Some frame) true; EvExport true]) xs.
Proof.
  induction 1 as [|frame l xs ls [args ->] _ IH]; [reflexivity|].
  cbn [concat flat_map]. rewrite !tape_events_app, IH.
  rewrite (tape_events_outside (l := repeat _ _)).
  - reflexivity.
  - apply Forall_forall. intros ev Hev. apply repeat_spec in Hev. now subst.
Qed.

End LoopFacts.

(** X6. Without an output path, the output rollout of a stage of even index
    stops with an assertion error once it has simulated and rendered its first
    frame: no image and no video is written. *)
Theorem X6_missing_output_path_is_fatal (ext : collaborators) (cfg : inputs)
  (sc : scene) (spf : Z) (batch : nat) (s : MPM_Simulator_WARP) :
  preprocess ext cfg = Ok sc ->
  output_path cfg = None ->
  (batch mod 2 = 0)%nat ->
  outcome_of (output_rollout ext cfg sc spf batch) s = Err AssertionError /\
  output_events (log_of (output_rollout ext cfg sc spf batch) s) = [] /\
  exists args,
    log_of (output_rollout ext cfg sc spf batch) s
    = EvFinalize false
      :: repeat (EvP2G2P (Some 0%nat) false) (Z.to_nat spf)
      ++ [EvExport false; EvRasterize 0 args].
Proof.
  intros Hscene Hdir Heven.
  assert (Hrun : exists args s',
             output_rollout ext cfg sc spf batch s
             = (EvFinalize false
                  :: repeat (EvP2G2P (Some 0%nat) false) (Z.to_nat spf)
                  ++ [EvExport false; EvRasterize 0 args],
                s', Err AssertionError)).
  { destruct (substeps_loop ext cfg (range spf) (Some 0%nat) false
                (finalize_mu_lam ext s)) as (s1 & bs & H1).
    rewrite length_range in H1.
    destruct (@render_run ext cfg sc Hscene 0%nat false s1) as [args Hr].
    exists args, s1.
    assert (Hframe :
              output_frame ext cfg sc spf 0 (finalize_mu_lam ext s)
              = (repeat (EvP2G2P (Some 0%nat) false) (Z.to_nat spf)
                 ++ [EvExport false; EvRasterize 0 args], s1,
                 @Err unit AssertionError)).
    { unfold output_frame. rewrite Hdir.
      rewrite (bind_ok _ _ _ H1). rewrite (bind_ok _ _ _ Hr). cbn.
      rewrite ?app_nil_r. reflexivity. }
    assert (Hloop :
              for_each (seq 0 (stage_num * frame_per_stage))
                (output_frame ext cfg sc spf) (finalize_mu_lam ext s)
              = (repeat (EvP2G2P (Some 0%nat) false) (Z.to_nat spf)
                 ++ [EvExport false; EvRasterize 0 args], s1,
                 @Err (list unit) AssertionError)).
    { change (seq 0 (stage_num * frame_per_stage)) with (0%nat :: seq 1 127).
      cbn [for_each]. apply bind_err. exact Hframe. }
    unfold output_rollout. rewrite Heven. cbn [Nat.eqb]. unfold finalize.
    rewrite (bind_ok _ _ _ (eq_refl : bind (emit (EvFinalize false))
                                        (fun _ => modify (finalize_mu_lam ext)) s
                                      = ([EvFinalize false],
                                         finalize_mu_lam ext s, Ok tt))).
    cbv beta. rewrite (bind_err _ _ _ Hloop). reflexivity. }
  destruct Hrun as (args & s' & Hrun).
  unfold outcome_of, log_of. rewrite Hrun. cbn [fst snd].
  split; [reflexivity|]. split; [|now exists args].
  change (output_events (EvFinalize false :: ?l)) with (output_events l).
  rewrite output_events_app, output_events_repeat_substep. reflexivity.
Qed.

(** X7. Nothing of the output rollout executes inside the tape: neither its
    finalisation, nor a substep, nor an export. *)
Theorem X7_output_rollout_outside_tape (ext : collaborators) (cfg : inputs)
  (sc : scene) (spf : Z) (batch : nat) (s : MPM_Simulator_WARP) :
  tape_events (log_of (output_rollout ext cfg sc spf batch) s) = [].
Proof. apply tape_events_outside. apply output_rollout_outside_tape. Qed.

(** X8. The differentiable rollout of a stage runs to its end, and what it
    executes inside the tape is the material finalisation and then, for each
    of the 16 frames in order, one substep and one export of the particle
    state: the warm-up substeps are not recorded. *)
Theorem X8_what_the_tape_records (ext : collaborators) (cfg : inputs)
  (sc : scene) (spf : Z) (batch : nat) (s : MPM_Simulator_WARP) :
  preprocess ext cfg = Ok sc ->
  (exists imgs,
      outcome_of (differentiable_rollout ext cfg sc spf batch) s = Ok imgs) /\
  tape_events (log_of (differentiable_rollout ext cfg sc spf batch) s)
  = EvFinalize true
    :: flat_map (fun frame => [EvP2G2P (Some frame) true; EvExport true])
         (seq 0 frame_per_stage).
Proof.
  intros Hscene.
  destruct (@differentiable_rollout_run ext cfg sc Hscene spf batch s)
    as (ls & s' & imgs & Hrun & Hall).
  unfold outcome_of, log_of. rewrite Hrun. cbn [fst snd].
  split; [now exists imgs|].
  change (tape_events (EvTapeReset :: EvFinalize true :: ?l))
    with (EvFinalize true :: tape_events l).
  f_equal. rewrite tape_events_app.
  rewrite (tape_events_outside (l := repeat _ _)).
  - apply (@tape_events_recorded_frames spf _ _ Hall).
  - apply Forall_forall. intros ev Hev. apply repeat_spec in Hev. now subst.
Qed.

(** X9. A frame of the recorded rollout advances the solver by
    max(1, (1 + stage_num) * step_per_frame) substeps, a frame of the output
    rollout by step_per_frame substeps (none when step_per_frame is zero or
    negative). *)
Theorem X9_substeps_per_frame (ext : collaborators) (cfg : inputs) (sc : scene)
  (spf : Z) (frame : nat) (s : MPM_Simulator_WARP) :
  length (substeps_of_frame frame
            (log_of (recorded_frame ext cfg sc spf frame) s))
  = Z.to_nat (Z.max 1 ((1 + Z.of_nat stage_num) * spf)) /\
  length (substeps_of_frame frame
            (log_of (output_frame ext cfg sc spf frame) s))
  = Z.to_nat (Z.max 0 spf).
Proof.
  rewrite recorded_frame_substeps, output_frame_substeps.
  rewrite length_app, !repeat_length. cbn [length]. unfold stage_num. lia.
Qed.

(** ** Gradient rescaling and loss *)

Lemma Rmax_affine (a b u v : R) :
  0 < a -> Rmax (a * u + b) (a * v + b) = a * Rmax u v + b.
Proof.
  intros Ha. unfold Rmax.
  destruct (Rle_dec (a * u + b) (a * v + b)), (Rle_dec u v);
    try reflexivity; exfalso; nra.
Qed.

Lemma Rmin_affine (a b u v : R) :
  0 < a -> Rmin (a * u + b) (a * v + b) = a * Rmin u v + b.
Proof.
  intros Ha. unfold Rmin.
  destruct (Rle_dec (a * u + b) (a * v + b)), (Rle_dec u v);
    try reflexivity; exfalso; nra.
Qed.

Lemma fold_left_Rmax_affine (a b : R) (l : list R) (x : R) :
  0 < a ->
  fold_left Rmax (map (fun g => a * g + b) l) (a * x + b)
  = a * fold_left Rmax l x + b.
Proof.
  intros Ha. revert x. induction l as [|y l IH]; intros x; cbn [map fold_left];
    [reflexivity|].
  rewrite Rmax_affine by exact Ha. apply IH.
Qed.

Lemma fold_left_Rmin_affine (a b : R) (l : list R) (x : R) :
  0 < a ->
  fold_left Rmin (map (fun g => a * g + b) l) (a * x + b)
  = a * fold_left Rmin l x + b.
Proof.
  intros Ha. revert x. induction l as [|y l IH]; intros x; cbn [map fold_left];
    [reflexivity|].
  rewrite Rmin_affine by exact Ha. apply IH.
Qed.

Lemma fold_left_Rmax_in (l : list R) (x : R) : In (fold_left Rmax l x) (x :: l).
Proof.
  revert x. induction l as [|y l IH]; intros x; cbn [fold_left]; [now left|].
  destruct (IH (Rmax x y)) as [H|H].
  - unfold Rmax in H at 1. rewrite <- H.
    destruct (Rle_dec x y); [right; now left | now left].
  - right. now right.
Qed.

Lemma fold_left_Rmin_in (l : list R) (x : R) : In (fold_left Rmin l x) (x :: l).
Proof.
  revert x. induction l as [|y l IH]; intros x; cbn [fold_left]; [now left|].
  destruct (IH (Rmin x y)) as [H|H].
  - unfold Rmin in H at 1. rewrite <- H.
    destruct (Rle_dec x y); [now left | right; now left].
  - right. now right.
Qed.

(** X10. Only the shape of a gradient matters to the update: multiplying
    every entry by the same positive factor and adding the same offset
    leaves the rescaled gradient as it is. *)
Theorem X10_rescaling_is_affine_invariant (a b : R) (grad : list R) :
  0 < a ->
  rescale_grad (map (fun g => a * g + b) grad) = rescale_grad grad.
Proof.
  intros Ha. destruct grad as [|g gs]; [reflexivity|].
  unfold rescale_grad, tensor_max, tensor_min, rbind. cbn [map].
  rewrite fold_left_Rmax_affine, fold_left_Rmin_affine by exact Ha.
  set (hi := fold_left Rmax gs g). set (lo := fold_left Rmin gs g).
  change (a * g + b :: map (fun g0 => a * g0 + b) gs)
    with (map (fun g0 => a * g0 + b) (g :: gs)).
  destruct (Req_dec_T (a * hi + b - (a * lo + b)) 0) as [Hz|Hnz];
    destruct (Req_dec_T (hi - lo) 0) as [Hz'|Hnz']; f_equal.
  - now rewrite map_map.
  - exfalso. apply Hnz'. nra.
  - exfalso. apply Hnz. nra.
  - assert (Ha' : a * hi + b - (a * lo + b) = a * (hi - lo)) by ring.
    rewrite map_map. cbn [map]. f_equal; [|apply map_ext; intros x];
      rewrite Ha'; field; split; lra.
Qed.

Lemma X10_witness :
  0 < 2 /\
  rescale_grad (map (fun g => 2 * g + 3) [1; 5; 2]) = rescale_grad [1; 5; 2].
Proof.
  assert (H : 0 < 2) by lra. split; [exact H|].
  exact (@X10_rescaling_is_affine_invariant 2 3 [1; 5; 2] H).
Defined.

(** X11. A gradient that is not constant is rescaled onto the whole
    interval: its smallest entry becomes -1/2 and its largest 1/2, and the
    order of the entries is kept. *)
Theorem X11_rescaling_spans_the_interval (grad r : list R) (x y : R) :
  rescale_grad grad = Ok r ->
  In x grad -> In y grad -> x <> y ->
  In (- (5 / 10)) r /\ In (5 / 10) r /\
  forall i j, (i < length grad)%nat -> (j < length grad)%nat ->
              nth i grad 0 <= nth j grad 0 -> nth i r 0 <= nth j r 0.
Proof.
  destruct grad as [|g gs]; [discriminate|].
  unfold rescale_grad, tensor_max, tensor_min, rbind.
  destruct (fold_left_Rmax_bounds gs g) as [Hmax Hmaxs].
  destruct (fold_left_Rmin_bounds gs g) as [Hmin Hmins].
  pose proof (fold_left_Rmax_in gs g) as Hin_hi.
  pose proof (fold_left_Rmin_in gs g) as Hin_lo.
  set (hi := fold_left Rmax gs g) in *. set (lo := fold_left Rmin gs g) in *.
  assert (Hall : forall z, In z (g :: gs) -> lo <= z <= hi).
  { intros z [<-|Hz]; [lra|]. rewrite Forall_forall in *.
    specialize (Hmaxs z Hz). specialize (Hmins z Hz). lra. }
  intros Hr Hx Hy Hxy.
  assert (Hpos : 0 < hi - lo).
  { pose proof (Hall x Hx) as Bx. pose proof (Hall y Hy) as By.
    destruct (Rtotal_order x y) as [Ho|[Ho|Ho]]; [lra | contradiction | lra]. }
  destruct (Req_dec_T (hi - lo) 0) as [Hz|_]; [lra|].
  set (phi := fun z => (z - lo) / (hi - lo) - 5 / 10).
  assert (Hr' : r = map phi (g :: gs)) by (unfold phi; congruence).
  clear Hr. rewrite Hr'. clear Hr'.
  split; [|split].
  - replace (- (5 / 10)) with (phi lo) by (unfold phi; field; lra).
    now apply in_map.
  - replace (5 / 10) with (phi hi) by (unfold phi; field; lra).
    now apply in_map.
  - intros i j Hi Hj Hle.
    rewrite (nth_indep _ 0 (phi 0)) by (rewrite length_map; exact Hi).
    rewrite (nth_indep _ 0 (phi 0) (n := j)) by (rewrite length_map; exact Hj).
    rewrite !(map_nth phi). unfold phi.
    apply Rplus_le_compat_r. apply Rmult_le_compat_r.
    + left. now apply Rinv_0_lt_compat.
    + lra.
Qed.

Lemma X11_witness :
  exists r,
    rescale_grad [1; 5; 2] = Ok r /\
    In (- (5 / 10)) r /\ In (5 / 10) r /\
    forall i j, (i < 3)%nat -> (j < 3)%nat ->
                nth i [1; 5; 2] 0 <= nth j [1; 5; 2] 0 -> nth i r 0 <= nth j r 0.
Proof.
  destruct (rescale_grad_bounded 1 [5; 2]) as (r & Hr & _).
  exists r. split; [exact Hr|].
  apply (@X11_rescaling_spans_the_interval [1; 5; 2] r 1 5 Hr).
  - now left.
  - right. now left.
  - lra.
Defined.

Lemma fold_left_weighted_sum (c : R) (l : list (string * R)) (acc : R) :
  fold_left (fun loss nv => loss + snd nv * c) l acc
  = acc + c * sum_R (map snd l).
Proof.
  revert acc. induction l as [|nv l IH]; intros acc; cbn [fold_left map];
    unfold sum_R in *; cbn [fold_right]; [lra|].
  rewrite IH. lra.
Qed.

Lemma total_loss_sum (guidance_out : list (string * R)) :
  total_loss guidance_out
  = if existsb is_loss guidance_out
    then Ok (3 / 80000 * sum_R (map snd (filter is_loss guidance_out)))
    else Err AttributeError.
Proof.
  unfold total_loss.
  change (fun nv : string * R => String.prefix "loss_" (fst nv)) with is_loss.
  destruct (existsb is_loss guidance_out) eqn:Hex.
  - destruct (filter is_loss guidance_out) as [|nv l] eqn:Hf.
    + exfalso. apply existsb_exists in Hex. destruct Hex as (x & Hx & Hl).
      assert (In x (filter is_loss guidance_out)) by (apply filter_In; auto).
      rewrite Hf in H. destruct H.
    + f_equal. rewrite fold_left_weighted_sum.
      unfold stage_num. cbn [INR]. field.
  - destruct (filter is_loss guidance_out) as [|nv l] eqn:Hf; [reflexivity|].
    exfalso. assert (Hin : In nv (filter is_loss guidance_out))
      by (rewrite Hf; now left).
    apply filter_In in Hin. destruct Hin as [Hin Hl].
    assert (existsb is_loss guidance_out = true)
      by (apply existsb_exists; eauto).
    congruence.
Qed.

(** X12. The loss that is back-propagated is 3e-4 / 8 times the sum of the
    guidance terms whose name starts with [loss_]; every other term is
    ignored, and with no such term the stage fails with an attribute
    error. *)
Theorem X12_total_loss_closed_form (guidance_out : list (string * R)) :
  total_loss guidance_out
  = if existsb is_loss guidance_out
    then Ok (3 / 80000 * sum_R (map snd (filter is_loss guidance_out)))
    else Err AttributeError.
Proof. apply total_loss_sum. Qed.

(** ** Whole stages and whole runs *)

Section RunFacts.

Context (ext : collaborators) (cfg : inputs) (sc : scene).
Hypothesis Hscene : preprocess ext cfg = Ok sc.

Lemma stage_outputs (dir : string) (spf : Z) (batch : nat) s :
  output_path cfg = Some dir ->
  In EvResetPos (log_of (stage ext cfg sc spf batch) s) ->
  outcome_of (stage ext cfg sc spf batch) s = Ok tt /\
  output_events (log_of (stage ext cfg sc spf batch) s)
  = (if Nat.eqb (batch mod 2) 0
     then map (fun frame => EvImwrite dir (frame_file frame))
            (seq 0 (stage_num * frame_per_stage))
          ++ [EvSaveVideo dir (video_file batch)]
     else []) /\
  updated_fields (log_of (stage ext cfg sc spf batch) s)
  = [FieldE; FieldMuN; FieldLamN; FieldViscosity].
Proof.
  intros Hdir Hin.
  destruct (stage_reached_reset ext cfg sc spf batch s Hin)
    as (imgs & Ho1 & Ho2 & Hlog).
  cbv zeta in *.
  set (s1 := solver_of (differentiable_rollout ext cfg sc spf batch) s) in *.
  set (s2 := solver_of (update_fields ext batch imgs) s1) in *.
  set (s3 := reset_pos_from_torch (mpm_init_pos sc) (mpm_init_vol sc)
               (mpm_init_cov sc) s2) in *.
  destruct (@output_rollout_run ext cfg sc Hscene dir Hdir spf batch s3)
    as (l3 & s4 & Hrun & Hout).
  assert (Hl3 : log_of (output_rollout ext cfg sc spf batch) s3 = l3)
    by (unfold log_of; now rewrite Hrun).
  split; [|split].
  - unfold stage. rewrite outcome_of_bind, Ho1. fold s1.
    rewrite outcome_of_bind, Ho2. fold s2.
    rewrite outcome_of_bind. cbn [outcome_of reset bind emit modify snd].
    change (solver_of (reset sc) s2) with s3.
    unfold outcome_of. now rewrite Hrun.
  - rewrite Hlog, !output_events_app.
    rewrite (output_events_quiet (P := quiet))
      by (first [intros ev Hev; apply Hev | apply differentiable_rollout_quiet]).
    rewrite (output_events_quiet (P := updating))
      by (first [intros ev Hev; apply Hev | apply update_fields_updating]).
    change (output_events (EvResetPos :: ?l)) with (output_events l).
    rewrite Hl3. exact Hout.
  - rewrite Hlog, !updated_fields_app.
    rewrite (updated_fields_quiet (P := quiet))
      by (first [intros ev Hev; apply Hev | apply differentiable_rollout_quiet]).
    rewrite (update_fields_log _ _ _ _ Ho2).
    change (updated_fields (EvResetPos :: ?l)) with (updated_fields l).
    rewrite (updated_fields_quiet (P := rolling))
      by (first [intros ev Hev; apply Hev | apply output_rollout_rolling]).
    reflexivity.
Qed.

Lemma output_events_concat (P : nat -> list event) (xs : list nat)
  (ls : list (list event)) :
  Forall2 (fun x l => output_events l = P x) xs ls ->
  output_events (concat ls) = flat_map P xs.
Proof.
  induction 1 as [|x l xs ls Hl _ IH]; [reflexivity|].
  cbn [concat flat_map]. now rewrite output_events_app, Hl, IH.
Qed.

Lemma updated_fields_concat (Q : list field) (xs : list nat)
  (ls : list (list event)) :
  Forall2 (fun _ l => updated_fields l = Q) xs ls ->
  updated_fields (concat ls) = concat (repeat Q (length xs)).
Proof.
  induction 1 as [|x l xs ls Hl _ IH]; [reflexivity|].
  cbn [concat length repeat]. now rewrite updated_fields_app, Hl, IH.
Qed.

End RunFacts.

(** X13. When the guidance model returns no term whose name starts with
    [loss_], the stage stops with an attribute error after its rollout:
    no field is updated, the solver is not reset and nothing is written. *)
Theorem X13_no_loss_term_is_fatal (ext : collaborators) (cfg : inputs)
  (sc : scene) (spf : Z) (batch : nat) (s : MPM_Simulator_WARP) :
  preprocess ext cfg = Ok sc ->
  (forall imgs, existsb is_loss (guidance ext imgs) = false) ->
  outcome_of (stage ext cfg sc spf batch) s = Err AttributeError /\
  updated_fields (log_of (stage ext cfg sc spf batch) s) = [] /\
  ~ In EvResetPos (log_of (stage ext cfg sc spf batch) s) /\
  output_events (log_of (stage ext cfg sc spf batch) s) = [].
Proof.
  intros Hscene Hguid.
  destruct (@differentiable_rollout_ok ext cfg sc Hscene spf batch s)
    as [imgs Ho1].
  set (s1 := solver_of (differentiable_rollout ext cfg sc spf batch) s).
  assert (Hupd : update_fields ext batch imgs s1
                 = ([EvGuidance], s1, Err AttributeError)).
  { unfold update_fields. rewrite bind_emit.
    unfold bind, lift. rewrite total_loss_sum, Hguid.
    reflexivity. }
  assert (Hlog : log_of (stage ext cfg sc spf batch) s
                 = log_of (differentiable_rollout ext cfg sc spf batch) s
                   ++ [EvGuidance]).
  { unfold stage. rewrite log_of_bind, Ho1. fold s1.
    rewrite log_of_bind. unfold log_of at 2, outcome_of. rewrite Hupd.
    cbn [fst snd]. now rewrite app_nil_r. }
  pose proof (differentiable_rollout_quiet ext cfg sc spf batch s) as Hq.
  split; [|split; [|split]].
  - unfold stage. rewrite outcome_of_bind, Ho1. fold s1.
    rewrite outcome_of_bind. unfold outcome_of at 1. rewrite Hupd. reflexivity.
  - rewrite Hlog, updated_fields_app.
    rewrite (updated_fields_quiet (P := quiet)); [reflexivity | | exact Hq].
    intros ev Hev. apply Hev.
  - rewrite Hlog. intros Hin. apply in_app_or in Hin.
    destruct Hin as [Hin|[Hin|[]]]; [|discriminate].
    revert Hin. eapply not_in_quiet; [|exact Hq]. intros e He. apply He.
  - rewrite Hlog, output_events_app.
    rewrite (output_events_quiet (P := quiet)); [reflexivity | | exact Hq].
    intros ev Hev. apply Hev.
Qed.

Section WholeRun.

Context (ext : collaborators) (cfg : inputs) (sc : scene) (dir : string).
Hypothesis Hscene : preprocess ext cfg = Ok sc.
Hypothesis Hdir : output_path cfg = Some dir.
Hypothesis Hguid :
  forall imgs, exists loss, total_loss (guidance ext imgs) = Ok loss.
Hypothesis Hgrad :
  forall b loss t,
    E_grad (material_grad ext b loss t) <> [] /\
    mu_N_grad (material_grad ext b loss t) <> [] /\
    lam_N_grad (material_grad ext b loss t) <> [] /\
    viscosity_grad (material_grad ext b loss t) <> [].

Lemma stage_run (spf : Z) (batch : nat) s :
  exists l s',
    stage ext cfg sc spf batch s = (l, s', Ok tt) /\
    output_events l
    = (if Nat.eqb (batch mod 2) 0
       then map (fun frame => EvImwrite dir (frame_file frame))
              (seq 0 (stage_num * frame_per_stage))
            ++ [EvSaveVideo dir (video_file batch)]
       else []) /\
    updated_fields l = [FieldE; FieldMuN; FieldLamN; FieldViscosity].
Proof.
  pose proof (@stage_reaches_reset ext cfg sc Hscene spf batch s Hguid Hgrad)
    as Hin.
  destruct (@stage_outputs ext cfg sc Hscene dir spf batch s Hdir Hin)
    as (Hok & Hout & Hupd).
  unfold outcome_of, log_of in *.
  destruct (stage ext cfg sc spf batch s) as [[l s'] r]. cbn [fst snd] in *.
  subst r. exists l, s'. auto.
Qed.

Lemma simulate_run (s0 : MPM_Simulator_WARP) :
  substep_dt (times cfg) <> 0 ->
  exists ls s',
    simulate ext cfg sc s0
    = (EvLoad (length (mpm_init_pos sc)) :: EvSetParameters
         :: EvSetBoundaryConditions :: concat ls, s', Ok tt) /\
    Forall2 (fun batch l =>
               output_events l
               = (if Nat.eqb (batch mod 2) 0
                  then map (fun frame => EvImwrite dir (frame_file frame))
                         (seq 0 (stage_num * frame_per_stage))
                       ++ [EvSaveVideo dir (video_file batch)]
                  else []) /\
               updated_fields l = [FieldE; FieldMuN; FieldLamN; FieldViscosity])
            (seq 0 n_batches) ls.
Proof.
  intros Hdt. unfold simulate.
  rewrite bind_emit, bind_modify, bind_emit, bind_modify, bind_emit, bind_modify.
  set (s3 := set_boundary_conditions _ _).
  unfold step_per_frame.
  destruct (Req_dec_T (substep_dt (times cfg)) 0) as [H|_]; [contradiction|].
  set (spf := py_int _).
  destruct (for_each_spec
              (fun batch l =>
                 output_events l
                 = (if Nat.eqb (batch mod 2) 0
                    then map (fun frame => EvImwrite dir (frame_file frame))
                           (seq 0 (stage_num * frame_per_stage))
                         ++ [EvSaveVideo dir (video_file batch)]
                    else []) /\
                 updated_fields l = [FieldE; FieldMuN; FieldLamN; FieldViscosity])
              (seq 0 n_batches) (stage ext cfg sc spf)) with (s := s3)
    as (ls & s' & bs & Hrun & Hall).
  { intros batch t _. destruct (stage_run spf batch t) as (l & t' & H & Hp).
    exists l, t', tt. auto. }
  exists ls, s'. split; [|exact Hall].
  assert (Hloop : (spf0 <- lift (Ok spf) ;;
                   for_each (seq 0 n_batches) (stage ext cfg sc spf0) ;;
                   ret tt)%M s3
                  = (concat ls, s', Ok tt)).
  { unfold bind at 1, lift. rewrite (bind_ok _ _ _ Hrun). cbn.
    rewrite ?app_nil_r. reflexivity. }
  rewrite Hloop. reflexivity.
Qed.

End WholeRun.

(** X14. A run whose preprocessing succeeds, with an output path, a non-zero
    substep, a guidance model that returns an optimisation loss and
    non-empty gradients, completes all 50 stages: every stage updates the
    four material fields, and exactly the stages of even index write their
    128 frame images (to the same 128 file names each time) followed by
    their video. *)
Theorem X14_completed_run_outputs (ext : collaborators) (cfg : inputs)
  (sc : scene) (dir : string) :
  preprocess ext cfg = Ok sc ->
  output_path cfg = Some dir ->
  substep_dt (times cfg) <> 0 ->
  (forall imgs, exists loss, total_loss (guidance ext imgs) = Ok loss) ->
  (forall b loss t,
      E_grad (material_grad ext b loss t) <> [] /\
      mu_N_grad (material_grad ext b loss t) <> [] /\
      lam_N_grad (material_grad ext b loss t) <> [] /\
      viscosity_grad (material_grad ext b loss t) <> []) ->
  exists log s,
    main ext cfg = (log, Some s, Ok tt) /\
    output_events log
    = flat_map (fun batch =>
                  if Nat.eqb (batch mod 2) 0
                  then map (fun frame => EvImwrite dir (frame_file frame))
                         (seq 0 (stage_num * frame_per_stage))
                       ++ [EvSaveVideo dir (video_file batch)]
                  else [])
        (seq 0 n_batches) /\
    updated_fields log
    = concat (repeat [FieldE; FieldMuN; FieldLamN; FieldViscosity] n_batches).
Proof.
  intros Hscene Hdir Hdt Hguid Hgrad.
  destruct (@simulate_run ext cfg sc dir Hscene Hdir Hguid Hgrad empty_solver Hdt)
    as (ls & s' & Hrun & Hall).
  exists (EvLoad (length (mpm_init_pos sc)) :: EvSetParameters
            :: EvSetBoundaryConditions :: concat ls), s'.
  split; [unfold main; rewrite Hscene, Hrun; reflexivity|].
  split.
  - change (output_events (EvLoad ?n :: EvSetParameters
                             :: EvSetBoundaryConditions :: ?l))
      with (output_events l).
    apply output_events_concat.
    eapply Forall2_impl; [|exact Hall]. intros b l H. apply H.
  - change (updated_fields (EvLoad ?n :: EvSetParameters
                              :: EvSetBoundaryConditions :: ?l))
      with (updated_fields l).
    rewrite (@updated_fields_concat
               [FieldE; FieldMuN; FieldLamN; FieldViscosity]
               (seq 0 n_batches) ls);
      [now rewrite length_seq|].
    eapply Forall2_impl; [|exact Hall]. intros b l H. apply H.
Qed.

(** ** Loading the checkpoint *)

Section LoadFacts.

Variable int_of_string : string -> option Z.

Lemma sort_keys_ok (names : list string) :
  Forall (fun n => int_of_string (last_segment n) <> None) names ->
  exists keyed,
    sort_keys int_of_string names = inr keyed /\ length keyed = length names.
Proof.
  induction 1 as [|n names Hn _ (keyed & Hk & Hlen)]; cbn [sort_keys].
  - now exists [].
  - destruct (int_of_string (last_segment n)) as [k|]; [|congruence].
    rewrite Hk. exists ((k, n) :: keyed). cbn. now rewrite Hlen.
Qed.

Lemma insert_by_key_length (kx : Z * string) (sorted : list (Z * string)) :
  length (insert_by_key kx sorted) = S (length sorted).
Proof.
  induction sorted as [|ky rest IH]; cbn [insert_by_key]; [reflexivity|].
  destruct (fst kx <? fst ky)%Z; cbn [length]; [reflexivity | now rewrite IH].
Qed.

Lemma sorted_by_key_length (keyed : list (Z * string)) :
  length (sorted_by_key keyed) = length keyed.
Proof.
  unfold sorted_by_key. rewrite length_map.
  induction keyed as [|kx keyed IH]; cbn [fold_right]; [reflexivity|].
  rewrite insert_by_key_length. cbn. now rewrite IH.
Qed.

Lemma filter_none {A : Type} (f : A -> bool) (l : list A) :
  Forall (fun x => f x = false) l -> filter f l = [].
Proof.
  induction 1 as [|x l Hx _ IH]; cbn; [reflexivity|]. now rewrite Hx.
Qed.

Lemma filter_all {A : Type} (f : A -> bool) (l : list A) :
  Forall (fun x => f x = true) l -> filter f l = l.
Proof.
  induction 1 as [|x l Hx _ IH]; cbn; [reflexivity|]. now rewrite Hx, IH.
Qed.

Lemma prefix_append (s1 s2 : string) : String.prefix s1 (s1 ++ s2) = true.
Proof.
  induction s1 as [|a s1 IH]; cbn.
  - now destruct s2.
  - destruct (ascii_dec a a) as [_|H]; [exact IH | now elim H].
Qed.

Lemma f_rest_names_prefixed (d : nat) :
  Forall (fun n => String.prefix "f_rest_" n = true) (f_rest_names d).
Proof.
  unfold f_rest_names. apply Forall_forall. intros n Hn.
  apply in_map_iff in Hn. destruct Hn as [i [<- _]]. apply prefix_append.
Qed.

Lemma f_rest_names_length (d : nat) :
  length (f_rest_names d) = (3 * ((d + 1) * (d + 1) - 1))%nat.
Proof. unfold f_rest_names. now rewrite length_map, length_seq. Qed.

(** The degree computed from the properties of a checkpoint of degree [d]. *)
Lemma sh_degree_of_checkpoint (d : nat) (before after : list string) :
  Forall (fun n => String.prefix "f_rest_" n = false) before ->
  Forall (fun n => String.prefix "f_rest_" n = false) after ->
  Forall (fun n => int_of_string (last_segment n) <> None) (f_rest_names d) ->
  sh_degree int_of_string (before ++ f_rest_names d ++ after)
  = inr (Z.of_nat d).
Proof.
  intros Hb Ha Hint. unfold sh_degree, extra_f_names.
  rewrite !filter_app, (filter_none _ Hb), (filter_none _ Ha), app_nil_r.
  cbn [app]. rewrite (filter_all _ (f_rest_names_prefixed d)).
  destruct (sort_keys_ok Hint) as (keyed & -> & Hlen).
  rewrite sorted_by_key_length, Hlen, f_rest_names_length. f_equal.
  replace ((Z.of_nat (3 * ((d + 1) * (d + 1) - 1)) + 3) / 3)%Z
    with ((Z.of_nat d + 1) * (Z.of_nat d + 1))%Z.
  - rewrite Z.sqrt_square by lia. lia.
  - apply Z.div_unique_exact; [lia|]. nia.
Qed.

(** A [f_rest_] property whose suffix is not an integer makes the load
    fail. *)
Lemma sh_degree_bad_suffix (before after : list string) (n : string) :
  Forall (fun m => String.prefix "f_rest_" m = false) before ->
  String.prefix "f_rest_" n = true ->
  int_of_string (last_segment n) = None ->
  sh_degree int_of_string (before ++ n :: after) = inl ValueError.
Proof.
  intros Hb Hn Hint. unfold sh_degree, extra_f_names.
  rewrite filter_app, (filter_none _ Hb). cbn [app filter]. rewrite Hn.
  cbn [sort_keys]. now rewrite Hint.
Qed.

End LoadFacts.

(** X15. A checkpoint that stores the 3 * ((d+1)^2 - 1) higher-order
    coefficients of a model of degree [d] under the names [f_rest_0],
    [f_rest_1], ... is loaded with spherical-harmonics degree [d], whatever
    other properties come before or after them; with no such property the
    degree is 0. *)
Theorem X15_sh_degree_of_checkpoint (int_of_string : string -> option Z)
  (d : nat) (before after : list string) :
  Forall (fun n => String.prefix "f_rest_" n = false) before ->
  Forall (fun n => String.prefix "f_rest_" n = false) after ->
  Forall (fun n => int_of_string (last_segment n) <> None) (f_rest_names d) ->
  sh_degree int_of_string (before ++ f_rest_names d ++ after) = inr (Z.of_nat d) /\
  sh_degree int_of_string (before ++ after) = inr 0%Z.
Proof.
  intros Hb Ha Hint. split; [now apply sh_degree_of_checkpoint|].
  pose proof (@sh_degree_of_checkpoint int_of_string 0 before after Hb Ha) as H0.
  cbn [f_rest_names] in H0. apply H0. constructor.
Qed.

Example last_segment_f_rest_12 : last_segment "f_rest_12" = "12"%string.
Proof. reflexivity. Qed.

Example last_segment_plain : last_segment "opacity" = "opacity"%string.
Proof. reflexivity. Qed.

Example last_segment_trailing : last_segment "scale_" = ""%string.
Proof. reflexivity. Qed.

Lemma X15_witness :
  sh_degree int_of_decimal
    (properties_before ++ f_rest_names 3 ++ properties_after) = inr 3%Z /\
  sh_degree int_of_decimal (properties_before ++ properties_after) = inr 0%Z.
Proof.
  apply (@X15_sh_degree_of_checkpoint int_of_decimal 3).
  - repeat constructor.
  - repeat constructor.
  - vm_compute. repeat constructor; discriminate.
Defined.

(** ** The further properties on concrete scenes *)

Lemma no_output_path_scene :
  exists sc, preprocess Examples.static_world no_output_path = Ok sc.
Proof. eexists. eval_scene. reflexivity. Qed.

Lemma lossless_scene :
  exists sc, preprocess lossless_world Examples.two_particles = Ok sc.
Proof. eexists. eval_scene. reflexivity. Qed.

Lemma X6_witness :
  exists sc,
    preprocess Examples.static_world no_output_path = Ok sc /\
    outcome_of (output_rollout Examples.static_world no_output_path sc 1 0)
      (Examples.loaded Examples.static_world no_output_path sc)
    = Err AssertionError /\
    output_events
      (log_of (output_rollout Examples.static_world no_output_path sc 1 0)
         (Examples.loaded Examples.static_world no_output_path sc)) = [] /\
    exists args,
      log_of (output_rollout Examples.static_world no_output_path sc 1 0)
        (Examples.loaded Examples.static_world no_output_path sc)
      = EvFinalize false
        :: repeat (EvP2G2P (Some 0%nat) false) (Z.to_nat 1)
        ++ [EvExport false; EvRasterize 0 args].
Proof.
  destruct no_output_path_scene as (sc & Hsc).
  exists sc. split; [exact Hsc|].
  exact (@X6_missing_output_path_is_fatal Examples.static_world no_output_path
           sc 1 0 (Examples.loaded Examples.static_world no_output_path sc)
           Hsc eq_refl eq_refl).
Defined.

Lemma X8_witness :
  exists sc,
    preprocess Examples.static_world Examples.two_particles = Ok sc /\
    (exists imgs,
        outcome_of
          (differentiable_rollout Examples.static_world Examples.two_particles
             sc 1 3)
          (Examples.loaded Examples.static_world Examples.two_particles sc)
        = Ok imgs) /\
    tape_events
      (log_of
         (differentiable_rollout Examples.static_world Examples.two_particles
            sc 1 3)
         (Examples.loaded Examples.static_world Examples.two_particles sc))
    = EvFinalize true
      :: flat_map (fun frame => [EvP2G2P (Some frame) true; EvExport true])
           (seq 0 frame_per_stage).
Proof.
  destruct two_particles_scene as (sc & Hsc & _).
  exists sc. split; [exact Hsc|].
  exact (@X8_what_the_tape_records Examples.static_world Examples.two_particles
           sc 1 3
           (Examples.loaded Examples.static_world Examples.two_particles sc) Hsc).
Defined.

Lemma X13_witness :
  exists sc,
    preprocess lossless_world Examples.two_particles = Ok sc /\
    outcome_of (stage lossless_world Examples.two_particles sc 1 0)
      (Examples.loaded lossless_world Examples.two_particles sc)
    = Err AttributeError /\
    updated_fields
      (log_of (stage lossless_world Examples.two_particles sc 1 0)
         (Examples.loaded lossless_world Examples.two_particles sc)) = [] /\
    ~ In EvResetPos
        (log_of (stage lossless_world Examples.two_particles sc 1 0)
           (Examples.loaded lossless_world Examples.two_particles sc)) /\
    output_events
      (log_of (stage lossless_world Examples.two_particles sc 1 0)
         (Examples.loaded lossless_world Examples.two_particles sc)) = [].
Proof.
  destruct lossless_scene as (sc & Hsc).
  exists sc. split; [exact Hsc|].
  exact (@X13_no_loss_term_is_fatal lossless_world Examples.two_particles sc 1 0
           (Examples.loaded lossless_world Examples.two_particles sc) Hsc
           (fun _ => eq_refl)).
Defined.

Lemma X14_witness :
  exists sc log s,
    preprocess Examples.static_world Examples.two_particles = Ok sc /\
    main Examples.static_world Examples.two_particles = (log, Some s, Ok tt) /\
    output_events log
    = flat_map (fun batch =>
                  if Nat.eqb (batch mod 2) 0
                  then map (fun frame => EvImwrite "out" (frame_file frame))
                         (seq 0 (stage_num * frame_per_stage))
                       ++ [EvSaveVideo "out" (video_file batch)]
                  else [])
        (seq 0 n_batches) /\
    updated_fields log
    = concat (repeat [FieldE; FieldMuN; FieldLamN; FieldViscosity] n_batches).
Proof.
  destruct two_particles_scene as (sc & Hsc & _).
  assert (Hdt : substep_dt (times Examples.two_particles) <> 0)
    by (cbn; lra).
  destruct (@X14_completed_run_outputs Examples.static_world
              Examples.two_particles sc "out" Hsc eq_refl Hdt
              static_world_guidance static_world_grads)
    as (log & s & Hmain & Hout & Hupd).
  exists sc, log, s. auto.
Defined.

(** ** What is loaded into the solver *)

Section LoadedArrays.

Context (ext : collaborators) (cfg : inputs).

Lemma build_scene_loaded (u : option frozen) (p : list V3) (c : list Cov6)
  (o : list R) (h : list SH) (sp : list V3) (sc : scene) :
  length c = length p ->
  build_scene ext cfg u p c o h sp = Ok sc ->
  init_len sc = length (mpm_init_pos sc) /\
  length (mpm_init_cov sc) = length (mpm_init_pos sc) /\
  (gs_num sc <= length (mpm_init_pos sc))%nat.
Proof.
  intros Hc H. unfold build_scene in H.
  set (rs := generate_rotation_matrices _ _) in H.
  pose proof (apply_rotations_length rs p) as Hr.
  set (rp := apply_rotations p rs) in *. clearbody rp.
  destruct (sim_area (preprocessing cfg)) as [b|].
  - destruct (Nat.eqb (length b) 6); [|cbn [rbind] in H; discriminate].
    cbn [rbind] in H.
    set (m := map (in_sim_area b) rp) in H.
    assert (Lc : length (mask_select m c) = length (mask_select m rp))
      by (apply mask_select_length; congruence).
    set (p2 := mask_select m rp) in *. set (c2 := mask_select m c) in *.
    clearbody p2 c2.
    destruct (normalize p2 c2 rs) as [[[[tp ic] so] om]|e] eqn:Hn;
      [|cbn [rbind] in H; discriminate].
    apply normalize_length in Hn. destruct Hn as [Htp Hic]. cbn [rbind] in H.
    unfold fill_particles, init_filled_particles in H.
    destruct (particle_filling (preprocessing cfg)) as [fp|];
      [destruct (visualize fp)|]; inversion H; subst; clear H; cbn;
      rewrite ?length_app, ?length_map, ?length_skipn, ?length_app,
        ?repeat_length;
      repeat split; lia.
  - cbn [rbind] in H.
    destruct (normalize rp c rs) as [[[[tp ic] so] om]|e] eqn:Hn;
      [|cbn [rbind] in H; discriminate].
    apply normalize_length in Hn. destruct Hn as [Htp Hic]. cbn [rbind] in H.
    unfold fill_particles, init_filled_particles in H.
    destruct (particle_filling (preprocessing cfg)) as [fp|];
      [destruct (visualize fp)|]; inversion H; subst; clear H; cbn;
      rewrite ?length_app, ?length_map, ?length_skipn, ?length_app,
        ?repeat_length;
      repeat split; lia.
Qed.

End LoadedArrays.

(** X16. When the reconstructed scene has one covariance per position, the
    positions and covariances that are loaded into the solver have the same
    number of rows, which is the number of particles the first [EvLoad]
    reports; the particles that are rendered are the first [gs_num] of them,
    and there is one appearance row and one opacity for each. *)
Theorem X16_loaded_arrays_are_consistent (ext : collaborators) (cfg : inputs)
  (sc : scene) :
  well_formed cfg ->
  preprocess ext cfg = Ok sc ->
  init_len sc = length (mpm_init_pos sc) /\
  length (mpm_init_cov sc) = length (mpm_init_pos sc) /\
  (gs_num sc <= length (mpm_init_pos sc))%nat /\
  length (shs_render sc) = gs_num sc /\
  length (opacity_render sc) = gs_num sc.
Proof.
  intros Hwf Hscene.
  destruct (@preprocess_shapes ext cfg Hwf sc Hscene) as (Hs & Ho & _ & _).
  destruct Hwf as (Hc & _ & _).
  assert (H : init_len sc = length (mpm_init_pos sc) /\
              length (mpm_init_cov sc) = length (mpm_init_pos sc) /\
              (gs_num sc <= length (mpm_init_pos sc))%nat).
  { unfold preprocess in Hscene.
    destruct (moving_pts cfg) as [pts|];
      eapply build_scene_loaded; try exact Hscene;
      repeat apply mask_select_length; exact Hc. }
  destruct H as (H1 & H2 & H3). auto.
Qed.

Lemma X16_witness :
  exists sc,
    preprocess Examples.static_world box_only = Ok sc /\
    init_len sc = length (mpm_init_pos sc) /\
    length (mpm_init_cov sc) = length (mpm_init_pos sc) /\
    (gs_num sc <= length (mpm_init_pos sc))%nat /\
    length (shs_render sc) = gs_num sc /\
    length (opacity_render sc) = gs_num sc.
Proof.
  destruct box_only_scene as (sc & Hsc & _).
  exists sc. split; [exact Hsc|].
  exact (@X16_loaded_arrays_are_consistent Examples.static_world box_only sc
           box_only_well_formed Hsc).
Defined.

(** ** The reset separates the update from the output *)

Lemma output_rollout_after_reset (ext : collaborators) (cfg : inputs)
  (sc : scene) (spf : Z) (batch : nat) :
  emits after_reset (output_rollout ext cfg sc spf batch).
Proof.
  unfold output_rollout, output_frame, finalize, render, substep.
  destruct (Nat.eqb (batch mod 2) 0); emits_tac; split;
    first [reflexivity | discriminate].
Qed.

(** X17. In a stage that reaches its reset, the reset happens once: the four
    field updates all come before it, in the order elastic modulus, the two
    plasticity moduli, viscosity, and every file is written after it. *)
Theorem X17_reset_separates_update_from_output (ext : collaborators)
  (cfg : inputs) (sc : scene) (spf : Z) (batch : nat) (s : MPM_Simulator_WARP) :
  In EvResetPos (log_of (stage ext cfg sc spf batch) s) ->
  exists before after,
    log_of (stage ext cfg sc spf batch) s = before ++ EvResetPos :: after /\
    ~ In EvResetPos before /\ ~ In EvResetPos after /\
    updated_fields before = [FieldE; FieldMuN; FieldLamN; FieldViscosity] /\
    updated_fields after = [] /\
    output_events before = [].
Proof.
  intros Hin.
  destruct (stage_reached_reset ext cfg sc spf batch s Hin)
    as (imgs & Ho1 & Ho2 & Hlog).
  cbv zeta in *.
  set (s1 := solver_of (differentiable_rollout ext cfg sc spf batch) s) in *.
  set (s2 := solver_of (update_fields ext batch imgs) s1) in *.
  set (s3 := reset_pos_from_torch (mpm_init_pos sc) (mpm_init_vol sc)
               (mpm_init_cov sc) s2) in *.
  pose proof (differentiable_rollout_quiet ext cfg sc spf batch s) as Hq1.
  pose proof (update_fields_updating ext batch imgs s1) as Hq2.
  pose proof (output_rollout_after_reset ext cfg sc spf batch s3) as Hq3.
  exists (log_of (differentiable_rollout ext cfg sc spf batch) s
          ++ log_of (update_fields ext batch imgs) s1),
    (log_of (output_rollout ext cfg sc spf batch) s3).
  split; [rewrite Hlog; now rewrite <- app_assoc|].
  split; [|split; [|split; [|split]]].
  - intros H. apply in_app_or in H. destruct H as [H|H]; revert H.
    + eapply not_in_quiet; [|exact Hq1]. intros e He. apply He.
    + eapply not_in_quiet; [|exact Hq2]. intros e He. apply He.
  - eapply not_in_quiet; [|exact Hq3]. intros e He. apply He.
  - rewrite updated_fields_app.
    rewrite (updated_fields_quiet (P := quiet)); [| |exact Hq1].
    + apply (update_fields_log _ _ _ _ Ho2).
    + intros ev Hev. apply Hev.
  - apply (updated_fields_quiet (P := after_reset)); [|exact Hq3].
    intros ev Hev. apply Hev.
  - rewrite output_events_app.
    rewrite (output_events_quiet (P := quiet)); [| |exact Hq1].
    + apply (output_events_quiet (P := updating)); [|exact Hq2].
      intros ev Hev. apply Hev.
    + intros ev Hev. apply Hev.
Qed.

Lemma X17_witness :
  exists sc before after,
    preprocess Examples.static_world Examples.two_particles = Ok sc /\
    log_of (stage Examples.static_world Examples.two_particles sc 1 0)
      (Examples.loaded Examples.static_world Examples.two_particles sc)
    = before ++ EvResetPos :: after /\
    ~ In EvResetPos before /\ ~ In EvResetPos after /\
    updated_fields before = [FieldE; FieldMuN; FieldLamN; FieldViscosity] /\
    updated_fields after = [] /\
    output_events before = [].
Proof.
  destruct two_particles_scene as (sc & Hsc & _).
  assert (Hin : In EvResetPos
                  (log_of (stage Examples.static_world Examples.two_particles sc 1 0)
                     (Examples.loaded Examples.static_world
                        Examples.two_particles sc))).
  { apply stage_reaches_reset;
      [exact Hsc | apply static_world_guidance | apply static_world_grads]. }
  destruct (@X17_reset_separates_update_from_output Examples.static_world
              Examples.two_particles sc 1 0
              (Examples.loaded Examples.static_world Examples.two_particles sc)
              Hin)
    as (before & after & H).
  exists sc, before, after. auto.
Defined.
